(** * att-bill-splitter: the bill splitter and its reports

    A shallow embedding of [attbillsplitter/main.py] (the method
    [AttBillSpliter.split_previous_bill]) and of
    [attbillsplitter/services.py] (the two reports and the notification
    path), with the properties the specification states about them.

    Conventions of the embedding.
    - Python [float] amounts are exact rationals ([Qc]); rounding of binary
      floating point is not represented in the amounts that are extracted,
      stored and added.  The comparison of lines 453-454 is made on binary64
      values ([F64]), the computed total being taken as the double nearest
      to the exact sum.
    - The browser is the record [browser]: what each XPath query of the code
      answers, [None] standing for [NoSuchElementException].
    - The database is the record [DB] of five tables; a statement of the code
      that can raise is a computation in the monad [M], which threads the
      database and the log and keeps both when an exception propagates (the
      code opens no transaction).
    - A Python local that may be unbound is an [option]; reading it while
      unbound raises [UnboundLocalError].
    - A label spliced into a regular expression is read character by
      character, as Python reads a label that has no pattern character. *)

From stdpp Require Import gmap strings list sorting.
From Stdlib Require Import Ascii QArith Qcanon Qabs Qcabs Qpower Lqa.
From Stdlib Require SpecFloat.

Open Scope string_scope.
Open Scope list_scope.

(** ** Exceptions *)

(** The exception classes that reach [split_previous_bill].  The first four
    are Python's own and [NoSuchElementException] is Selenium's;
    [ParsingError], [CalculationError] and
    [IntegrityError] are the ones main.py imports from
    [attbillsplitter.errors].  [IntegrityError] is the signal of a violated
    uniqueness constraint (the specification calls it DuplicateChargeError).
    [ExtractionError] belongs to the specification's taxonomy only: main.py
    neither imports nor raises it. *)
Inductive exn : Set :=
| AttributeError
| ValueError
| UnboundLocalError
| ZeroDivisionError
| NoSuchElementException
| ParsingError
| CalculationError
| IntegrityError
| ExtractionError.

#[global] Instance exn_eq_dec : EqDecision exn.
Proof. solve_decision. Defined.

(** ** Text: the string operations of the code *)

Module Text.

(** [s[n:]] *)
Fixpoint drop (n : nat) (s : string) : string :=
  match n, s with
  | O, _ => s
  | S n', String _ s' => drop n' s'
  | S _, EmptyString => EmptyString
  end.

(** [s.startswith(p)] *)
Definition startswith (s p : string) : bool := String.prefix p s.

Fixpoint lstrip (c : ascii) (s : string) : string :=
  match s with
  | String c' s' => if Ascii.eqb c c' then lstrip c s' else s
  | EmptyString => EmptyString
  end.

Fixpoint rstrip (c : ascii) (s : string) : string :=
  match s with
  | String c' s' =>
      match rstrip c s' with
      | EmptyString => if Ascii.eqb c c' then EmptyString else String c' EmptyString
      | r => String c' r
      end
  | EmptyString => EmptyString
  end.

(** [s.strip(c)] for a one-character argument *)
Definition strip (c : ascii) (s : string) : string := rstrip c (lstrip c s).

Definition is_digit (c : ascii) : bool :=
  let n := nat_of_ascii c in (48 <=? n)%nat && (n <=? 57)%nat.

(** the character class [[0-9.]] *)
Definition is_digit_or_dot (c : ascii) : bool :=
  is_digit c || Ascii.eqb c ".".

(** Leading decimal digits of [s]: their value on top of [acc], how many
    there were, and the rest of the string. *)
Fixpoint read_digits (acc : Z) (n : nat) (s : string) : Z * nat * string :=
  match s with
  | String c s' =>
      if is_digit c
      then read_digits (10 * acc + (Z.of_nat (nat_of_ascii c) - 48)) (S n) s'
      else (acc, n, s)
  | EmptyString => (acc, n, s)
  end.

(** [float(s)] on a numeral of digits and dots, which is all the capture
    group [([0-9.]+)] can hold: an integer part, optionally a dot and a
    fraction, at least one digit in all; anything else is [ValueError].
    (Python's [float] also reads signs, exponents, blanks, inf and nan; a
    string of that kind is answered [ValueError] here, so a result [inr q]
    is always the value Python computes, up to rounding.  The text of an
    element, which can be of that kind, is read by [F64.float].) *)
Definition float (s : string) : exn + Qc :=
  let '(i, ni, rest) := read_digits 0 0 s in
  match rest with
  | EmptyString =>
      if (ni =? 0)%nat then inl ValueError else inr (Qc_of_Z i)
  | String c rest' =>
      if Ascii.eqb c "." then
        let '(f, nf, rest'') := read_digits 0 0 rest' in
        match rest'' with
        | EmptyString =>
            if (ni + nf =? 0)%nat then inl ValueError
            else inr (Qc_of_Z (i * 10 ^ Z.of_nat nf + f) / Qc_of_Z (10 ^ Z.of_nat nf))%Qc
        | String _ _ => inl ValueError
        end
      else inl ValueError
  end.

End Text.

(** ** Binary64: Python's [float] where the code compares

    The values and the operations are those of the Standard Library's
    specification of IEEE 754 arithmetic ([SpecFloat]), at the precision
    and the exponent range of binary64. *)

Module F64.

Definition prec : Z := 53.
Definition emax : Z := 1024.

Definition double : Set := SpecFloat.spec_float.

(** [x - y] *)
Definition sub (x y : double) : double := SpecFloat.SFsub prec emax x y.

(** [abs(x)] *)
Definition abs (x : double) : double := SpecFloat.SFabs x.

(** [x > y]: false when either is a NaN *)
Definition gt (x y : double) : bool := SpecFloat.SFltb y x.

(** The double nearest to [n / d], ties to even: the quotient, rounded
    once, of two integers. *)
Definition nearest (neg : bool) (n d : positive) : double :=
  SpecFloat.SFdiv prec emax (SpecFloat.S754_finite neg n 0)
                            (SpecFloat.S754_finite false d 0).

Definition of_Q (q : Q) : double :=
  match Qnum q with
  | Z0 => SpecFloat.S754_zero false
  | Zpos n => nearest false n (Qden q)
  | Zneg n => nearest true n (Qden q)
  end.

Definition of_Qc (q : Qc) : double := of_Q (this q).

(** The literal [0.01] *)
Definition cent : double := of_Q (1 # 100).


(** What [float(s)] strips at both ends of a string: the characters that
    Python counts as white space, among the code points below 256. *)
Definition is_space (c : ascii) : bool :=
  let n := nat_of_ascii c in
  ((9 <=? n)%nat && (n <=? 13)%nat) || (n =? 32)%nat
  || (n =? 133)%nat || (n =? 160)%nat.

Fixpoint lstrip (s : string) : string :=
  match s with
  | String c s' => if is_space c then lstrip s' else s
  | EmptyString => EmptyString
  end.

Fixpoint rstrip (s : string) : string :=
  match s with
  | String c s' =>
      match rstrip s' with
      | EmptyString => if is_space c then EmptyString else String c EmptyString
      | r => String c r
      end
  | EmptyString => EmptyString
  end.

Definition lower (c : ascii) : ascii :=
  let n := nat_of_ascii c in
  if (65 <=? n)%nat && (n <=? 90)%nat then ascii_of_nat (n + 32) else c.

Fixpoint lower_string (s : string) : string :=
  match s with
  | String c s' => String (lower c) (lower_string s')
  | EmptyString => EmptyString
  end.

(** An underscore is allowed between two digits only; [prev] is the
    character before [s]. *)
Fixpoint underscores_ok (prev : ascii) (s : string) : bool :=
  match s with
  | String c s' =>
      (if Ascii.eqb c "_" then Text.is_digit prev
       else negb (Ascii.eqb prev "_") || Text.is_digit c)
      && underscores_ok c s'
  | EmptyString => negb (Ascii.eqb prev "_")
  end.

Fixpoint remove_underscores (s : string) : string :=
  match s with
  | String c s' =>
      if Ascii.eqb c "_" then remove_underscores s'
      else String c (remove_underscores s')
  | EmptyString => EmptyString
  end.

(** An optional sign: whether it is a minus, and the rest. *)
Definition read_sign (s : string) : bool * string :=
  match s with
  | String c s' =>
      if Ascii.eqb c "-" then (true, s')
      else if Ascii.eqb c "+" then (false, s')
      else (false, s)
  | EmptyString => (false, s)
  end.

(** The exponent part, which ends the numeral: nothing, or [e] or [E], an
    optional sign and at least one digit. *)
Definition read_exponent (s : string) : option Z :=
  match s with
  | EmptyString => Some 0%Z
  | String c s' =>
      if Ascii.eqb (lower c) "e" then
        let '(neg, s'') := read_sign s' in
        let '(e, n, rest) := Text.read_digits 0 0 s'' in
        match rest with
        | EmptyString =>
            if (n =? 0)%nat then None else Some (if neg then - e else e)%Z
        | String _ _ => None
        end
      else None
  end.

(** The double nearest to [n * 10 ^ e], for [n] not negative. *)
Definition decimal (neg : bool) (n e : Z) : double :=
  match (n * 10 ^ Z.max e 0)%Z with
  | Zpos num => nearest neg num (Z.to_pos (10 ^ Z.max (- e) 0))
  | _ => SpecFloat.S754_zero neg
  end.

(** [float(s)] for a string [s]: white space is stripped at both ends,
    underscores between digits are dropped, and what is left is a sign or
    none and then [inf], [infinity] or [nan] in any case of the letters, or
    a decimal numeral (digits, a dot or none, digits, at least one digit in
    all) with an exponent or none; the numeral is rounded to the nearest
    double.  Anything else is [ValueError].  Characters are code points
    below 256. *)
Definition float (s : string) : exn + double :=
  let s := rstrip (lstrip s) in
  if negb (underscores_ok "000" s) then inl ValueError
  else
    let '(neg, s) := read_sign (remove_underscores s) in
    let l := lower_string s in
    if String.eqb l "inf" || String.eqb l "infinity"
    then inr (SpecFloat.S754_infinity neg)
    else if String.eqb l "nan" then inr SpecFloat.S754_nan
    else
      let '(i, ni, rest) := Text.read_digits 0 0 s in
      let '(f, nf, rest) :=
        match rest with
        | String c rest' =>
            if Ascii.eqb c "." then Text.read_digits 0 0 rest' else (0%Z, 0%nat, rest)
        | EmptyString => (0%Z, 0%nat, rest)
        end in
      if (ni + nf =? 0)%nat then inl ValueError
      else
        match read_exponent rest with
        | Some e => inr (decimal neg (i * 10 ^ Z.of_nat nf + f) (e - Z.of_nat nf))
        | None => inl ValueError
        end.

End F64.

(** ** Regular expressions, as far as the code uses them *)

Module Re.

(** The two patterns of main.py are built from three constructs: literal
    characters (an escaped [\$] is the literal dollar), the lazy [.*?]
    (under [re.DOTALL] the dot matches every character, newlines included)
    and one capturing group [([0-9.]+)], greedy. *)
Inductive item : Type :=
| Char (c : ascii)
| LazyAny
| GroupPlus (cls : ascii → bool).

Definition regex := list item.

(** Backtracking match of [r] at the start of [s]; the answer is the text of
    group 1 (empty when [r] has no group). *)
Fixpoint match_here (r : regex) : string → option string :=
  match r with
  | [] => λ _, Some EmptyString
  | Char c :: r' => λ s,
      match s with
      | String c' s' => if Ascii.eqb c c' then match_here r' s' else None
      | EmptyString => None
      end
  | LazyAny :: r' =>
      fix lazy (s : string) : option string :=
        match match_here r' s with
        | Some g => Some g
        | None =>
            match s with
            | String _ s' => lazy s'
            | EmptyString => None
            end
        end
  | GroupPlus cls :: r' =>
      fix plus (s : string) : option string :=
        match s with
        | String c s' =>
            if cls c then
              match plus s' with
              | Some g => Some (String c g)
              | None =>
                  match match_here r' s' with
                  | Some _ => Some (String c EmptyString)
                  | None => None
                  end
              end
            else None
        | EmptyString => None
        end
  end.

(** [re.search(r, s)]: the match at the leftmost position that has one;
    [None] when there is none.  The answer is [m.group(1)]. *)
Fixpoint search (r : regex) (s : string) : option string :=
  match match_here r s with
  | Some g => Some g
  | None =>
      match s with
      | String _ s' => search r s'
      | EmptyString => None
      end
  end.

Fixpoint lit (s : string) : regex :=
  match s with
  | String c s' => Char c :: lit s'
  | EmptyString => []
  end.

(** The characters that have a meaning of their own in a Python pattern. *)
Definition is_meta (c : ascii) : bool :=
  existsb (Ascii.eqb c)
    ["."; "^"; "$"; "*"; "+"; "?"; "{"; "}"; "["; "]"; "\"; "|"; "("; ")"]%char.

(** A label with none of them stands for itself in a pattern. *)
Fixpoint plain (s : string) : bool :=
  match s with
  | String c s' => negb (is_meta c) && plain s'
  | EmptyString => true
  end.

(** ['Total {}.*?\$([0-9.]+)'.format(label)].  The label is spliced into the
    pattern unescaped; it is read here character by character, which is
    what Python does for a [plain] label. *)
Definition total_pattern (label : string) : regex :=
  lit ("Total " +:+ label) ++ [LazyAny; Char "$"; GroupPlus Text.is_digit_or_dot].

(** ['National Account Discount.*?\$([0-9.]+)'] *)
Definition discount_pattern : regex :=
  lit "National Account Discount" ++ [LazyAny; Char "$"; GroupPlus Text.is_digit_or_dot].

End Re.

(** [m = re.search('Total {}.*?\$([0-9.]+)'.format(label), text, re.DOTALL)]
    followed by [float(m.group(1))] (main.py, lines 190-195 and the three
    copies of them): [m.group] on [None] is an [AttributeError]. *)
Definition extract_total (label text : string) : exn + Qc :=
  match Re.search (Re.total_pattern label) text with
  | None => inl AttributeError
  | Some g => Text.float g
  end.

(** [if charge_type_text.startswith('Monthly Charges'):
        charge_type_text = 'Monthly Charges'] *)
Definition canonical_label (charge_type_text : string) : string :=
  if Text.startswith charge_type_text "Monthly Charges"
  then "Monthly Charges" else charge_type_text.

(** The numerator and denominator of a result, for concrete evaluation. *)
Definition qval (r : exn + Qc) : exn + Q := sum_map id this r.

(** ** The ledger: five tables

    [attbillsplitter/models.py] is not among the sources; the tables and
    the operations on them follow the specification and the way main.py
    and services.py call them.  Every row has the primary key [id] that
    peewee adds. *)

(** Modelled from the spec: the model [User] of [models.py]. *)
Record User : Type :=
  { user_id : nat; user_name : string; user_number : string }.

(** Modelled from the spec: the model [ChargeCategory] of [models.py]. *)
Record ChargeCategory : Type :=
  { category_id : nat; category : string; category_text : string }.

(** Modelled from the spec: the model [ChargeType] of [models.py];
    [type_] is the column [type], [charge_category] a foreign key. *)
Record ChargeType : Type :=
  { type_id : nat; type_ : string; type_text : string; charge_category : nat }.

(** Modelled from the spec: the model [BillingCycle] of [models.py], as far
    as [split_previous_bill] fills it ([create] is given the name only). *)
Record BillingCycle : Type :=
  { cycle_id : nat; cycle_name : string }.

(** Modelled from the spec: the model [Charge] of [models.py]; [user],
    [charge_type] and [billing_cycle] are foreign keys. *)
Record Charge : Type :=
  { charge_id : nat; user : nat; charge_type : nat; billing_cycle : nat;
    amount : Qc }.

Record DB : Type :=
  { tbl_user : list User;
    tbl_category : list ChargeCategory;
    tbl_type : list ChargeType;
    tbl_cycle : list BillingCycle;
    tbl_charge : list Charge }.

(** What the logger receives.  [DuplicateWarning] is the call
    [logger.warning('Trying to write duplicate charge record!\n%s', ...)]
    with the fields of the rejected row. *)
Inductive log_entry : Type :=
| Info (msg : string)
| Warning (msg : string)
| DuplicateWarning (u t c : nat) (a : Qc).

Record world : Type := { db : DB; log : list log_entry }.

Definition set_db (f : DB → DB) (w : world) : world :=
  {| db := f (db w); log := log w |}.

(** ** Computations that read and write the ledger and may raise *)

Definition M (A : Type) : Type := world → world * (exn + A).

#[global] Instance M_ret : MRet M := λ A a w, (w, inr a).

#[global] Instance M_bind : MBind M := λ A B k m w,
  match m w with
  | (w', inr a) => k a w'
  | (w', inl e) => (w', inl e)
  end.

Definition raise {A} (e : exn) : M A := λ w, (w, inl e).

(** A value computed by an expression that may raise. *)
Definition lift {A} (r : exn + A) : M A := λ w, (w, r).

(** [x] where [x] is a local that may be unbound. *)
Definition read_local {A} (x : option A) : M A :=
  match x with
  | Some a => mret a
  | None => raise UnboundLocalError
  end.

(** A Selenium lookup: [None] is [NoSuchElementException]. *)
Definition find_element {A} (x : option A) : M A :=
  match x with
  | Some a => mret a
  | None => raise NoSuchElementException
  end.

Definition logger (e : log_entry) : M unit := λ w,
  ({| db := db w; log := log w ++ [e] |}, inr tt).

(** [for x in l: s = body(s, x)], the locals the body assigns being [s]. *)
Fixpoint for_each {A S} (body : S → A → M S) (l : list A) (s : S) : M S :=
  match l with
  | [] => mret s
  | x :: l' => s' ← body s x; for_each body l' s'
  end.

(** A primary key no row of the table has. *)
Definition fresh (ids : list nat) : nat := S (max_list ids).

(** *** Ledger operations *)

(** Modelled from the spec: [User.get_or_create(name=..., number=...)];
    [attbillsplitter/models.py] is not among the sources.  The row whose
    fields match is returned, otherwise a row is appended and returned. *)
Definition User_get_or_create (name number : string) : M User := λ w,
  match List.find (λ u, bool_decide (user_name u = name ∧ user_number u = number))
          (tbl_user (db w)) with
  | Some u => (w, inr u)
  | None =>
      let u := {| user_id := fresh (user_id <$> tbl_user (db w));
                  user_name := name; user_number := number |} in
      (set_db (λ d, {| tbl_user := tbl_user d ++ [u];
                       tbl_category := tbl_category d; tbl_type := tbl_type d;
                       tbl_cycle := tbl_cycle d; tbl_charge := tbl_charge d |}) w,
       inr u)
  end.

(** Modelled from the spec: [ChargeCategory.get_or_create(category=...,
    text=...)], [models.py] being absent. *)
Definition ChargeCategory_get_or_create (cat text : string) : M ChargeCategory := λ w,
  match List.find (λ c, bool_decide (category c = cat ∧ category_text c = text))
          (tbl_category (db w)) with
  | Some c => (w, inr c)
  | None =>
      let c := {| category_id := fresh (category_id <$> tbl_category (db w));
                  category := cat; category_text := text |} in
      (set_db (λ d, {| tbl_user := tbl_user d;
                       tbl_category := tbl_category d ++ [c];
                       tbl_type := tbl_type d;
                       tbl_cycle := tbl_cycle d; tbl_charge := tbl_charge d |}) w,
       inr c)
  end.

(** Modelled from the spec: [ChargeType.get_or_create(type=..., text=...,
    charge_category=...)], [models.py] being absent. *)
Definition ChargeType_get_or_create (ty text : string) (cat : ChargeCategory)
  : M ChargeType := λ w,
  match List.find (λ t, bool_decide (type_ t = ty ∧ type_text t = text
                                     ∧ charge_category t = category_id cat))
          (tbl_type (db w)) with
  | Some t => (w, inr t)
  | None =>
      let t := {| type_id := fresh (type_id <$> tbl_type (db w));
                  type_ := ty; type_text := text;
                  charge_category := category_id cat |} in
      (set_db (λ d, {| tbl_user := tbl_user d; tbl_category := tbl_category d;
                       tbl_type := tbl_type d ++ [t];
                       tbl_cycle := tbl_cycle d; tbl_charge := tbl_charge d |}) w,
       inr t)
  end.

(** Lines 151-153 of main.py: the truth value of
    [BillingCycle.select().where(BillingCycle.name == name)], whether some
    row has that name.  The query is main.py's; the table it reads is the
    one modelled from the spec, [models.py] being absent. *)
Definition BillingCycle_exists (name : string) : M bool := λ w,
  (w, inr (existsb (λ c, bool_decide (cycle_name c = name)) (tbl_cycle (db w)))).

(** Modelled from the spec: [BillingCycle.create(name=...)], [models.py]
    being absent. *)
Definition BillingCycle_create (name : string) : M BillingCycle := λ w,
  let c := {| cycle_id := fresh (cycle_id <$> tbl_cycle (db w));
              cycle_name := name |} in
  (set_db (λ d, {| tbl_user := tbl_user d; tbl_category := tbl_category d;
                   tbl_type := tbl_type d;
                   tbl_cycle := tbl_cycle d ++ [c];
                   tbl_charge := tbl_charge d |}) w,
   inr c).

Definition same_triple (u t c : nat) (r : Charge) : bool :=
  bool_decide (user r = u ∧ charge_type r = t ∧ billing_cycle r = c).

(** Modelled from the spec: [Charge(user=..., charge_type=...,
    billing_cycle=..., amount=...).save()], [models.py] being absent.  The
    triple (user, charge_type, billing_cycle) is unique: when a row has it
    already the insert is rejected with [IntegrityError] and the table is
    left as it was; otherwise one row is appended.  [u] is the primary key
    of the user, which is what the row stores. *)
Definition Charge_save (u : nat) (t : ChargeType) (c : BillingCycle) (a : Qc)
  : M unit := λ w,
  if existsb (same_triple u (type_id t) (cycle_id c)) (tbl_charge (db w))
  then (w, inl IntegrityError)
  else
    let r := {| charge_id := fresh (charge_id <$> tbl_charge (db w));
                user := u; charge_type := type_id t;
                billing_cycle := cycle_id c; amount := a |} in
    (set_db (λ d, {| tbl_user := tbl_user d; tbl_category := tbl_category d;
                     tbl_type := tbl_type d; tbl_cycle := tbl_cycle d;
                     tbl_charge := tbl_charge d ++ [r] |}) w,
     inr tt).

(** Lines 436-445 of main.py: the aggregate [SUM(Charge.amount)] over the
    join of Charge with ChargeType on the type's id, for one user, one
    cycle and one category.  The query is main.py's; the tables it reads
    are those modelled from the spec, [models.py] being absent, and the sum
    is exact, as the amounts are. *)
Definition user_total (u : nat) (c : BillingCycle) (cat : ChargeCategory)
  : M Qc := λ w,
  (w, inr (foldr Qcplus 0%Qc
             (flat_map (λ r,
                flat_map (λ t,
                  if bool_decide (charge_type r = type_id t ∧ user r = u
                                  ∧ billing_cycle r = cycle_id c
                                  ∧ charge_category t = category_id cat)
                  then [amount r] else [])
                  (tbl_type (db w)))
                (tbl_charge (db w))))).

(** ** The page *)

(** A line-item block: [elem.find_element_by_xpath("div[1]").text] (absent
    when the block has no such child) and [elem.text]. *)
Record elem : Type := { elem_label : option string; elem_text : string }.

(** What the XPath queries of [split_previous_bill] answer on one bill:
    the heading 'New charges for ...', the blocks of U-verse TV and of
    U-verse Internet, the blocks between the heading '<name> <num>' and
    'Total for <num>' of the wireless part, and the element after
    'Total Wireless Charges'. *)
Record browser : Type :=
  { new_charge_title : option string;
    utv_elems : option (list elem);
    uvi_elems : option (list elem);
    wireless_elems : string → string → option (list elem);
    wireless_total_elem : option string }.

(** ** AttBillSpliter.split_previous_bill *)

Section Splitter.

(** [slugify] of the package python-slugify. *)
Variable slugify : string → string.

(** The fields of the object that the method reads;
    [settings.phonebook] is the list of (name, number). *)
Record AttBillSpliter : Type :=
  { account_holder : User; phonebook : list (string * string) }.

(** [w_act_m = 130  # monthly charge for wireless account] *)
Definition w_act_m : Qc := Qc_of_Z 130.

(** [try: new_charge = Charge(...); new_charge.save()
     except IntegrityError: logger.warning(...)]
    The answer tells whether the [else] branch of the statement is taken,
    that is whether the row was written. *)
Definition try_save (u : nat) (t : ChargeType) (c : BillingCycle) (a : Qc)
  : M bool := λ w,
  match Charge_save u t c a w with
  | (w', inl IntegrityError) =>
      (fst (logger (DuplicateWarning u (type_id t) (cycle_id c) a) w'), inr false)
  | (w', inl e) => (w', inl e)
  | (w', inr _) => (w', inr true)
  end.

(** The block under the comment [# save data to db], which the four loops
    over line items repeat: the ChargeType of the label, then the Charge. *)
Definition save_to_db (u : nat) (cat : ChargeCategory) (charge_type_text : string)
    (c : BillingCycle) (charge_total : Qc) : M unit :=
  let charge_type_name := slugify charge_type_text in
  t ← ChargeType_get_or_create charge_type_name charge_type_text cat;
  _ ← try_save u t c charge_total;
  mret ().

(** The sections U-verse TV and U-verse Internet (lines 159-279), which
    differ in the query and in the category only. *)
Definition uverse_item (self : AttBillSpliter) (cat : ChargeCategory)
    (c : BillingCycle) (_ : unit) (e : elem) : M unit :=
  charge_type_text ← find_element (elem_label e);
  let charge_type_text := canonical_label charge_type_text in
  charge_total ← lift (extract_total charge_type_text (elem_text e));
  save_to_db (user_id (account_holder self)) cat charge_type_text c charge_total.

Definition uverse (self : AttBillSpliter) (charge_elems : option (list elem))
    (cat text skipped : string) (c : BillingCycle) : M unit :=
  match charge_elems with
  | None => logger (Info skipped)
  | Some charge_elems =>
      cat ← ChargeCategory_get_or_create cat text;
      for_each (uverse_item self cat c) charge_elems ()
  end.

(** The locals that the loop over the account holder's blocks assigns and
    that the rest of the method reads. *)
Record locals : Type := { offset : option Qc; w_act_m_disc : option Qc }.

(** One turn of the loop of lines 312-353. *)
Definition holder_item (self : AttBillSpliter) (cat : ChargeCategory)
    (c : BillingCycle) (l : locals) (e : elem) : M locals :=
  charge_type_text ← find_element (elem_label e);
  (* offset = 0 *)
  let l := {| offset := Some 0%Qc; w_act_m_disc := w_act_m_disc l |} in
  '(charge_type_text, l) ←
    (if Text.startswith charge_type_text "Monthly Charges" then
       l ← match Re.search Re.discount_pattern (elem_text e) with
            | Some g =>
                d ← lift (Text.float g);
                mret {| offset := offset l; w_act_m_disc := Some d |}
            | None => mret l
            end;
       d ← read_local (w_act_m_disc l);
       mret ("Monthly Charges",
             {| offset := Some (w_act_m - d)%Qc; w_act_m_disc := w_act_m_disc l |})
     else mret (charge_type_text, l));
  x ← lift (extract_total charge_type_text (elem_text e));
  o ← read_local (offset l);
  let charge_total := (x - o)%Qc in
  save_to_db (user_id (account_holder self)) cat charge_type_text c charge_total;;
  mret l.

(** Lines 295-353: the account holder's wireless blocks. *)
Definition wireless_holder (self : AttBillSpliter) (b : browser)
    (c : BillingCycle) (l : locals) : M (ChargeCategory * locals) :=
  match wireless_elems b (user_name (account_holder self))
                         (user_number (account_holder self)) with
  | None => raise ParsingError
  | Some charge_elems =>
      cat ← ChargeCategory_get_or_create "wireless" "Wireless";
      l ← for_each (holder_item self cat c) charge_elems l;
      mret (cat, l)
  end.

(** One turn of the loop of lines 375-406; the local it assigns is
    [charge_total]. *)
Definition user_item (u : User) (cat : ChargeCategory) (c : BillingCycle)
    (l : locals) (_ : Qc) (e : elem) : M Qc :=
  charge_type_text ← find_element (elem_label e);
  let charge_type_text := canonical_label charge_type_text in
  x ← lift (extract_total charge_type_text (elem_text e));
  o ← read_local (offset l);
  let charge_total := (x - o)%Qc in
  save_to_db (user_id u) cat charge_type_text c charge_total;;
  mret charge_total.

(** One turn of the loop of lines 357-408 over [settings.phonebook]; the
    local it assigns is the set [users], whose members are compared by
    primary key. *)
Definition regular_user (self : AttBillSpliter) (b : browser)
    (cat : ChargeCategory) (c : BillingCycle) (l : locals)
    (users : gset nat) (entry : string * string) : M (gset nat) :=
  let '(name, number) := entry in
  if bool_decide (number = user_number (account_holder self)) then mret users
  else
    let charge_total := 0%Qc in
    match wireless_elems b name number with
    | None => raise ParsingError
    | Some charge_elems =>
        u ← User_get_or_create name number;
        charge_total ← for_each (user_item u cat c l) charge_elems charge_total;
        if bool_decide (0 < charge_total)%Qc
        then mret ({[ user_id u ]} ∪ users)
        else mret users
    end.

(** Lines 355-408. *)
Definition regular_users (self : AttBillSpliter) (b : browser)
    (cat : ChargeCategory) (c : BillingCycle) (l : locals) : M (gset nat) :=
  for_each (regular_user self b cat c l) (phonebook self)
           {[ user_id (account_holder self) ]}.

(** One turn of the loop of lines 414-446; the local it assigns is
    [wireless_total].  [u] is the primary key of the member of [users]. *)
Definition share_item (cat : ChargeCategory) (c : BillingCycle)
    (act_m_share : Qc) (wireless_total : Qc) (u : nat) : M Qc :=
  t ← ChargeType_get_or_create "wireless-acount-monthly-charges-share"
        "Account Monthly Charges Share" cat;
  saved ← try_save u t c act_m_share;
  if saved : bool then
    total ← user_total u c cat;
    mret (wireless_total + total)%Qc
  else mret wireless_total.

(** Lines 410-446. *)
Definition shares (cat : ChargeCategory) (c : BillingCycle) (l : locals)
    (users : gset nat) : M Qc :=
  d ← read_local (w_act_m_disc l);
  if bool_decide (size users = 0%nat) then raise ZeroDivisionError
  else
    let act_m_share := ((w_act_m - d) / Qc_of_Z (Z.of_nat (size users)))%Qc in
    for_each (share_item cat c act_m_share) (elements users) 0%Qc.

(** Lines 447-458: the bill's own total against the one just computed.
    [wireless_total] is the exact sum that the embedding carries; the
    double that the method holds is taken to be the one nearest to it.  The
    difference, its absolute value and the comparison with [0.01] are those
    of binary64. *)
Definition verify (b : browser) (wireless_total : Qc) : M unit :=
  text ← find_element (wireless_total_elem b);
  bill_wireless_total ← lift (F64.float (Text.strip "$" text));
  if F64.gt (F64.abs (F64.sub bill_wireless_total (F64.of_Qc wireless_total)))
            F64.cent
  then raise CalculationError
  else logger (Info "Wireless charges calculation results verified.").

(** The locals of the method when the loop of lines 414-446 has ended. *)
Record frame : Type :=
  { billing_cycle_ : BillingCycle;
    wireless_charge_category : ChargeCategory;
    locals_ : locals;
    users_ : gset nat;
    wireless_total_ : Qc }.

(** Everything from the creation of the cycle's row up to, and not
    including, the comparison with the bill's total (lines 157-446). *)
Definition split_new_cycle (self : AttBillSpliter) (b : browser)
    (billing_cycle_name : string) : M frame :=
  c ← BillingCycle_create billing_cycle_name;
  uverse self (utv_elems b) "utv" "U-verse TV"
    "No U-verse TV Charge Elements Found, skipped." c;;
  uverse self (uvi_elems b) "uvi" "U-verse Internet"
    "No U-verse Internet Charge Elements Found, skipped." c;;
  '(cat, l) ← wireless_holder self b c {| offset := None; w_act_m_disc := None |};
  users ← regular_users self b cat c l;
  wireless_total ← shares cat c l users;
  mret {| billing_cycle_ := c; wireless_charge_category := cat; locals_ := l;
          users_ := users; wireless_total_ := wireless_total |}.

Definition split_previous_bill (self : AttBillSpliter) (b : browser) : M unit :=
  logger (Info "Start processing new bill...");;
  new_charge_title ← find_element (new_charge_title b);
  let billing_cycle_name := Text.drop 16 new_charge_title in
  processed ← BillingCycle_exists billing_cycle_name;
  if processed : bool then
    logger (Warning "Billing Cycle %s already processed.")
  else
    f ← split_new_cycle self b billing_cycle_name;
    verify b (wireless_total_ f);;
    logger (Info "Finished procesessing bill %s.").

End Splitter.

(** ** services.py: the two reports and the notification path *)

Module Services.

(** A row of a report query: the user it belongs to ([User.id],
    [User.name], [User.number]), the text of the charge type (empty in the
    summary, whose query selects none) and the total. *)
Record row : Type :=
  { row_id : nat; row_name : string; row_number : string;
    row_charge_type : string; row_total : Qc }.

(** What [print] writes, one constructor for each format string. *)
Inductive line : Type :=
| NoData                                   (* 'No charge summary found ...' *)
| Rule                                     (* '------...' *)
| Title (cycle : string)                   (* 'Charge Summary for Billing Cycle {}' *)
| SummaryRow (name number : string) (total : Qc)
| UserHeader (name number : string)        (* '    {} ({})' *)
| DetailRow (charge_type : string) (total : Qc)
| UserTotal (total : Qc)                   (* '      - Total   {:.2f}' *)
| WirelessTotal (total : Qc).

Definition le_id (r1 r2 : row) : Prop := (row_id r1 ≤ row_id r2)%nat.

#[global] Instance le_id_dec : RelDecision le_id.
Proof. intros r1 r2. unfold le_id. apply _. Defined.

(** [.order_by(User.id)] applied to the rows of a query, given in the order
    in which the database yields them without the clause. *)
Definition order_by_user_id (rows : list row) : list row := merge_sort le_id rows.

(** [print_wireless_monthly_summary], lines 45-68.  [bc] is the cycle the
    month and the year select, if any; [rows] are the rows of the query of
    lines 52-60, which has no ORDER BY clause, in the order in which the
    database yields them. *)
Definition print_wireless_monthly_summary (bc : option BillingCycle)
    (rows : list row) : list line :=
  match bc with
  | None => NoData :: nil
  | Some bc =>
      let '(out, wireless_total) :=
        foldl (λ '(out, wireless_total) u,
                 (out ++ SummaryRow (row_name u) (row_number u) (row_total u) :: nil,
                  (wireless_total + row_total u)%Qc))
              (Rule :: Title (cycle_name bc) :: Rule :: nil, 0%Qc) rows in
      out ++ Rule :: WirelessTotal wireless_total :: nil
  end.

(** The locals of the loop of [print_wireless_monthly_details]. *)
Record details_state : Type :=
  { current_user_num : string; current_user_total : Qc;
    wireless_total : Qc; printed : list line }.

(** One turn of the loop of lines 116-126. *)
Definition details_step (s : details_state) (u : row) : details_state :=
  let s :=
    if bool_decide (row_number u ≠ current_user_num s) then
      let s :=
        if bool_decide (current_user_total s ≠ 0%Qc) then
          {| current_user_num := current_user_num s;
             current_user_total := current_user_total s;
             wireless_total := (wireless_total s + current_user_total s)%Qc;
             printed := printed s ++ UserTotal (current_user_total s) :: nil |}
        else s in
      {| current_user_num := row_number u;
         current_user_total := 0%Qc;
         wireless_total := wireless_total s;
         printed := printed s ++ UserHeader (row_name u) (row_number u) :: nil |}
    else s in
  {| current_user_num := current_user_num s;
     current_user_total := (current_user_total s + row_total u)%Qc;
     wireless_total := wireless_total s;
     printed := printed s ++ DetailRow (row_charge_type u) (row_total u) :: nil |}.

(** [print_wireless_monthly_details], lines 91-129.  [rows] are the rows
    of the query of lines 95-112 before its ORDER BY clause. *)
Definition print_wireless_monthly_details (bc : option BillingCycle)
    (rows : list row) : list line :=
  match bc with
  | None => NoData :: nil
  | Some bc =>
      let s := foldl details_step
                 {| current_user_num := ""; current_user_total := 0%Qc;
                    wireless_total := 0%Qc; printed := nil |}
                 (order_by_user_id rows) in
      let out :=
        if bool_decide (current_user_total s ≠ 0%Qc)
        then printed s ++ UserTotal (current_user_total s) :: nil
        else printed s in
      out ++ WirelessTotal (wireless_total s) :: nil
  end.

(** The lines of a text message, one constructor for each format string of
    [notify_users_monthly_details]. *)
Inductive msg_line : Type :=
| Greeting (name number cycle : string)   (* 'Hi {} ({}),\nYour AT&T ... for {}:\n' *)
| ItemLine (charge_type : string) (total : Qc)
| TotalLine (total : Qc).

(** The locals of the loop of [notify_users_monthly_details].
    [current_user_num] starts as the integer -1, which no number (a string)
    equals: it is [None] here, and so is it as a key of [messages]. *)
Record notify_state : Type :=
  { n_current_user_num : option string; n_current_user_total : Qc;
    messages : gmap (option string) (list msg_line);
    message : list msg_line }.

(** One turn of the loop of lines 183-195. *)
Definition notify_step (bc : BillingCycle) (s : notify_state) (u : row)
  : notify_state :=
  let s :=
    if bool_decide (Some (row_number u) ≠ n_current_user_num s) then
      let s :=
        if bool_decide (n_current_user_total s ≠ 0%Qc) then
          let message := message s ++ TotalLine (n_current_user_total s) :: nil in
          {| n_current_user_num := n_current_user_num s;
             n_current_user_total := n_current_user_total s;
             messages := <[n_current_user_num s := message]> (messages s);
             message := message |}
        else s in
      {| n_current_user_num := Some (row_number u);
         n_current_user_total := 0%Qc;
         messages := messages s;
         message := Greeting (row_name u) (row_number u) (cycle_name bc) :: nil |}
    else s in
  {| n_current_user_num := n_current_user_num s;
     n_current_user_total := (n_current_user_total s + row_total u)%Qc;
     messages := messages s;
     message := message s ++ ItemLine (row_charge_type u) (row_total u) :: nil |}.

(** Lines 179-182. *)
Definition notify_init : notify_state :=
  {| n_current_user_num := None; n_current_user_total := 0%Qc;
     messages := ∅; message := nil |}.

(** Lines 179-198: the locals when the confirmation loop starts. *)
Definition notify_collect (bc : BillingCycle) (rows : list row) : notify_state :=
  let s := foldl (notify_step bc) notify_init (order_by_user_id rows) in
  if bool_decide (n_current_user_total s ≠ 0%Qc) then
    {| n_current_user_num := n_current_user_num s;
       n_current_user_total := n_current_user_total s;
       messages := messages s;
       message := message s ++ TotalLine (n_current_user_total s) :: nil |}
  else s.

(** [notify_users_monthly_details], lines 157-209: the messages sent, as
    (number, body, payment message).  [answer] is what the operator types
    at the prompt 'Notify (y/n)? ' for each number.  (Python walks the
    dictionary in the order of insertion; the order of the list here is
    that of [map_to_list].) *)
Definition notify_users_monthly_details (answer : option string → string)
    (payment_msg : string) (bc : option BillingCycle) (rows : list row)
  : list (option string * list msg_line * string) :=
  match bc with
  | None => nil
  | Some bc =>
      omap (λ '(num, msg),
              if bool_decide (answer num ∈ ["y"; "Y"; "yes"; "Yes"; "YES"])
              then Some (num, msg, payment_msg) else None)
           (map_to_list (messages (notify_collect bc rows)))
  end.

End Services.


(** ** Notions used in the statements *)

(** The row is in the table and carries the triple. *)
Definition stored (w : world) (u : nat) (t : ChargeType) (c : BillingCycle)
    (r : Charge) : Prop :=
  r ∈ tbl_charge (db w) ∧ user r = u ∧ charge_type r = type_id t
  ∧ billing_cycle r = cycle_id c.

(** The user lines of a printed summary. *)
Definition summary_rows (out : list Services.line) : list (string * string * Qc) :=
  omap (λ l, match l with
             | Services.SummaryRow name number x => Some (name, number, x)
             | _ => None
             end) out.

(** The item lines of a printed report. *)
Definition detail_rows (out : list Services.line) : list (string * Qc) :=
  omap (λ l, match l with
             | Services.DetailRow t x => Some (t, x)
             | _ => None
             end) out.

Section NotifyInvariant.
Import Services.

(** What the loop of lines 183-195 maintains, for the rows [l] walked so
    far: the current number is that of the last row; a key of [messages] is
    the number of a row that is followed by a row of another number; the
    message under construction is the greeting and the items of the
    trailing rows of the current number, and the running total is theirs. *)
Definition notify_inv (bc : BillingCycle) (l : list Services.row)
    (s : Services.notify_state) : Prop :=
  n_current_user_num s = row_number <$> last l
  ∧ (∀ k m, messages s !! k = Some m →
       ∃ l1 r1 r2 l2, l = l1 ++ r1 :: r2 :: l2 ∧ k = Some (row_number r1)
                      ∧ row_number r2 ≠ row_number r1)
  ∧ match last l with
    | None => n_current_user_total s = 0%Qc ∧ message s = []
    | Some r =>
        ∃ l1 x run, l = l1 ++ x :: run
          ∧ Forall (λ y, row_number y = row_number r) (x :: run)
          ∧ (∀ y, last l1 = Some y → row_number y ≠ row_number r)
          ∧ message s = Greeting (row_name x) (row_number r) (cycle_name bc)
                        :: ((λ y, ItemLine (row_charge_type y) (row_total y)) <$> x :: run)
          ∧ n_current_user_total s = foldl Qcplus 0%Qc (row_total <$> x :: run)
    end.

End NotifyInvariant.

(** *** The extraction, in the words of the specification

    "Locate the first occurrence of 'Total <label>' followed (possibly
    across line breaks) by a currency amount": the text after the first
    occurrence of the anchor, then the first dollar sign in it that a digit
    or a dot follows, then the digits and dots after that sign. *)

Module Locate.

(** The text after the first occurrence of [p] in [s]. *)
Fixpoint after_first (p s : string) : option string :=
  if String.prefix p s then Some (Text.drop (String.length p) s)
  else
    match s with
    | String _ s' => after_first p s'
    | EmptyString => None
    end.

Definition starts_amount (s : string) : bool :=
  match s with
  | String c _ => Text.is_digit_or_dot c
  | EmptyString => false
  end.

(** The longest prefix of digits and dots. *)
Fixpoint numeral (s : string) : string :=
  match s with
  | String c s' => if Text.is_digit_or_dot c then String c (numeral s') else EmptyString
  | EmptyString => EmptyString
  end.

(** The numeral after the first dollar sign that has one. *)
Fixpoint first_amount (s : string) : option string :=
  match s with
  | String c s' =>
      if Ascii.eqb "$" c && starts_amount s' then Some (numeral s')
      else first_amount s'
  | EmptyString => None
  end.

Definition total (label body : string) : option string :=
  after_first ("Total " +:+ label) body ≫= first_amount.

(** Digits and dots only. *)
Fixpoint is_numeral (s : string) : bool :=
  match s with
  | String c s' => Text.is_digit_or_dot c && is_numeral s'
  | EmptyString => true
  end.

(** A decimal numeral and its value: the digits before the dot and the
    digits after it, most significant first. *)
Fixpoint digits (ds : list nat) : string :=
  match ds with
  | d :: ds' => String (ascii_of_nat (48 + d)) (digits ds')
  | [] => EmptyString
  end.

Definition digits_value (ds : list nat) : Z :=
  foldl (λ a d, 10 * a + Z.of_nat d)%Z 0%Z ds.

Definition decimal_value (int frac : list nat) : Qc :=
  (Qc_of_Z (digits_value (int ++ frac)) / Qc_of_Z (10 ^ Z.of_nat (length frac)))%Qc.

End Locate.

(** The amount that a turn of the loop of lines 375-406 computes for a
    block, when it computes one: the total extracted from the block less
    the local [offset]. *)
Definition item_amount (l : locals) (e : elem) : option Qc :=
  label ← elem_label e;
  match extract_total (canonical_label label) (elem_text e), offset l with
  | inr x, Some o => Some (x - o)%Qc
  | _, _ => None
  end.

(** *** The shares of the pooled fee in the ledger *)

(** The row that [ChargeType.get_or_create(type=
    'wireless-acount-monthly-charges-share', text='Account Monthly Charges
    Share', charge_category=cat)] retrieves. *)
Definition share_type (cat : ChargeCategory) (d : DB) : option ChargeType :=
  List.find (λ t, bool_decide (type_ t = "wireless-acount-monthly-charges-share"
                               ∧ type_text t = "Account Monthly Charges Share"
                               ∧ charge_category t = category_id cat))
            (tbl_type d).

(** The charges of type [t] in cycle [c], as (user, amount). *)
Definition charges_of_type (t : ChargeType) (c : BillingCycle) (d : DB)
  : list (nat * Qc) :=
  (λ r, (user r, amount r))
    <$> filter (λ r, charge_type r = type_id t ∧ billing_cycle r = cycle_id c)
               (tbl_charge d).

(** The 'Account Monthly Charges Share' charges of cycle [c]. *)
Definition share_charges (cat : ChargeCategory) (c : BillingCycle) (d : DB)
  : list (nat * Qc) :=
  match share_type cat d with
  | Some t => charges_of_type t c d
  | None => []
  end.

(** A ledger whose keys are in order: the primary keys of ChargeType are
    distinct, and the cycle of every charge is a row of BillingCycle. *)
Definition ledger_ok (d : DB) : Prop :=
  NoDup (type_id <$> tbl_type d)
  ∧ ∀ r, r ∈ tbl_charge d → ∃ c, c ∈ tbl_cycle d ∧ cycle_id c = billing_cycle r.

(** What the loops over line items maintain: the type of every charge of
    cycle [c] is a row whose code is the slug of its text. *)
Definition item_typed (slugify : string → string) (c : BillingCycle) (d : DB)
  : Prop :=
  NoDup (type_id <$> tbl_type d)
  ∧ ∀ r, r ∈ tbl_charge d → billing_cycle r = cycle_id c →
      ∃ t, t ∈ tbl_type d ∧ type_id t = charge_type r
           ∧ type_ t = slugify (type_text t).

(** [m] keeps [P] true of the ledger whenever it ends without exception. *)
Definition keeps {A} (P : DB → Prop) (m : M A) : Prop :=
  ∀ w w' a, P (db w) → m w = (w', inr a) → P (db w').

(** What the loop of lines 414-446 maintains, [done] being the members of
    [users] it has walked: the charges of the share type in cycle [c] are
    theirs, one each, of amount [share]. *)
Definition shares_inv (cat : ChargeCategory) (c : BillingCycle) (share : Qc)
    (done : list nat) (d : DB) : Prop :=
  NoDup (type_id <$> tbl_type d)
  ∧ match share_type cat d with
    | Some t => charges_of_type t c d ≡ₚ (λ u, (u, share)) <$> done
    | None =>
        done = []
        ∧ ∀ r, r ∈ tbl_charge d → billing_cycle r = cycle_id c →
            charge_type r ∈ type_id <$> tbl_type d
    end.

(** The wireless charges of user [u] in cycle [c], the share of the pooled
    fee apart: their total. *)
Definition line_total (cat : ChargeCategory) (c : BillingCycle) (u : nat)
    (d : DB) : Qc :=
  foldr Qcplus 0%Qc
    (flat_map (λ r,
       flat_map (λ t,
         if bool_decide (charge_type r = type_id t ∧ user r = u
                         ∧ billing_cycle r = cycle_id c
                         ∧ charge_category t = category_id cat
                         ∧ type_text t ≠ "Account Monthly Charges Share")
         then amount r :: nil else nil)
         (tbl_type d))
       (tbl_charge d)).

(** [m] keeps [P] true of the ledger however it ends. *)
Definition always {A} (P : DB → Prop) (m : M A) : Prop :=
  ∀ w, P (db w) → P (db (m w).1).

(** A ledger in order in which [c] is a row of BillingCycle. *)
Definition ledger_with (c : BillingCycle) (d : DB) : Prop :=
  ledger_ok d ∧ c ∈ tbl_cycle d.



(** ** Sample bills *)

Module Sample.

(** A stand-in for python-slugify on the labels of the samples: lower case
    letters, and a dash for every other character but digits. *)
Definition slug_char (c : ascii) : ascii :=
  let n := nat_of_ascii c in
  if (65 <=? n)%nat && (n <=? 90)%nat then ascii_of_nat (n + 32)
  else if ((97 <=? n)%nat && (n <=? 122)%nat) || Text.is_digit c then c
  else "-"%char.

Fixpoint slug (s : string) : string :=
  match s with
  | String c s' => String (slug_char c) (slug s')
  | EmptyString => EmptyString
  end.

Definition ann : User := {| user_id := 1; user_name := "Ann"; user_number := "111" |}.

Definition self : AttBillSpliter :=
  {| account_holder := ann;
     phonebook := [("Ann", "111"); ("Bob", "222"); ("Cy", "333")] |}.

(** The ledger after [AttBillSpliter.__init__]: the account holder's row. *)
Definition w0 : world :=
  {| db := {| tbl_user := [ann]; tbl_category := []; tbl_type := [];
              tbl_cycle := []; tbl_charge := [] |};
     log := [] |}.

Definition block (label text : string) : elem :=
  {| elem_label := Some label; elem_text := text |}.

Definition monthly_150 : elem :=
  block "Monthly Charges - Jan 10 thru Feb 09"
        "Monthly Charges - Jan 10 thru Feb 09
 Mobile Share Value 15GB $130.00
 National Account Discount -$20.00
 Access for line $40.00
 Total Monthly Charges
 $150.00".

(** The scenario of the specification: a pooled fee of 130 with a discount
    of 20, the holder with charges, Bob with none and Cy with some. *)
Definition bill (total : string) : browser :=
  {| new_charge_title := Some "New charges for Jan 10 - Feb 09";
     utv_elems := Some [block "Monthly Charges - Jan" "Total Monthly Charges $60.00"];
     uvi_elems := None;
     wireless_elems := λ _ number,
       if bool_decide (number = "111") then
         Some [monthly_150; block "Surcharges" "Total Surcharges $2.50"]
       else if bool_decide (number = "222") then
         Some [block "Monthly Charges - Jan" "Total Monthly Charges $0.00"]
       else
         Some [block "Monthly Charges - Jan" "Total Monthly Charges $25.00"];
     wireless_total_elem := Some total |}.

(** The charges of a ledger, as (user, charge type, cycle, amount). *)
Definition charges_of (w : world) : list (nat * nat * nat * Q) :=
  (λ r, (user r, charge_type r, billing_cycle r, this (amount r))) <$> tbl_charge (db w).

(** A ledger in which the cycle of [bill] has been processed. *)
Definition cycle_jan : BillingCycle := {| cycle_id := 1; cycle_name := "Jan 10 - Feb 09" |}.

Definition w_processed : world :=
  {| db := {| tbl_user := [ann]; tbl_category := []; tbl_type := [];
              tbl_cycle := [cycle_jan]; tbl_charge := [] |};
     log := [] |}.

(** The rows of the summary query, Cy's (user 3) first. *)
Definition summary_rows : list Services.row :=
  [ {| Services.row_id := 3; Services.row_name := "Cy";
       Services.row_number := "333"; Services.row_charge_type := "";
       Services.row_total := Qc_of_Z 80 |};
    {| Services.row_id := 1; Services.row_name := "Ann";
       Services.row_number := "111"; Services.row_charge_type := "";
       Services.row_total := Qc_of_Z 97 |} ].

(** A bill on which the holder's only wireless block is the monthly
    charges, and Bob has surcharges of 5.00. *)
Definition bill_monthly_last : browser :=
  {| new_charge_title := Some "New charges for Feb 10 - Mar 09";
     utv_elems := None;
     uvi_elems := None;
     wireless_elems := λ _ number,
       if bool_decide (number = "111") then Some [monthly_150]
       else if bool_decide (number = "222") then
         Some [block "Surcharges" "Total Surcharges $5.00"]
       else Some [];
     wireless_total_elem := Some "$150.00" |}.

(** A bill on which the holder's wireless charges come to nothing: the
    monthly charges are the pooled fee less the discount. *)
Definition bill_holder_zero : browser :=
  {| new_charge_title := Some "New charges for Mar 10 - Apr 09";
     utv_elems := None;
     uvi_elems := None;
     wireless_elems := λ _ number,
       if bool_decide (number = "111") then
         Some [block "Monthly Charges - Mar"
                 "National Account Discount -$20.00 Total Monthly Charges $110.00";
               block "Surcharges" "Total Surcharges $0.00"]
       else if bool_decide (number = "222") then
         Some [block "Monthly Charges - Mar" "Total Monthly Charges $30.00"]
       else Some [];
     wireless_total_elem := Some "$140.00" |}.

(** A bill on which Bob's blocks amount to 5.00 and then 0.00. *)
Definition bill_last_zero : browser :=
  {| new_charge_title := Some "New charges for Mar 10 - Apr 09";
     utv_elems := None;
     uvi_elems := None;
     wireless_elems := λ _ number,
       if bool_decide (number = "111") then
         Some [monthly_150; block "Surcharges" "Total Surcharges $2.50"]
       else if bool_decide (number = "222") then
         Some [block "Equipment" "Total Equipment $5.00";
               block "Taxes" "Total Taxes $0.00"]
       else Some [];
     wireless_total_elem := Some "$157.50" |}.

(** A bill without a discount line in the holder's monthly charges, and one
    without monthly charges for the holder. *)
Definition bill_no_discount : browser :=
  {| new_charge_title := Some "New charges for Apr 10 - May 09";
     utv_elems := None;
     uvi_elems := None;
     wireless_elems := λ _ number,
       if bool_decide (number = "111") then
         Some [block "Monthly Charges - Apr" "Total Monthly Charges $150.00"]
       else Some [];
     wireless_total_elem := Some "$150.00" |}.


(** The world and the value a computation ends with. *)
Definition amount_of (text : string) : Qc :=
  match Text.float text with
  | inr q => q
  | inl _ => 0%Qc
  end.

Definition empty_frame : frame :=
  {| billing_cycle_ := cycle_jan;
     wireless_charge_category :=
       {| category_id := 0; category := ""; category_text := "" |};
     locals_ := {| offset := None; w_act_m_disc := None |};
     users_ := ∅; wireless_total_ := 0%Qc |}.

Definition frame_of (r : world * (exn + frame)) : frame :=
  match r.2 with
  | inr f => f
  | inl _ => empty_frame
  end.

(** The ledger when the method has logged its first message. *)
Definition w0_started : world :=
  {| db := db w0; log := log w0 ++ [Info "Start processing new bill..."] |}.

(** The split of [bill] up to the comparison of the totals. *)
Definition split_jan : world * (exn + frame) :=
  split_new_cycle slug self (bill "$177.50") "Jan 10 - Feb 09" w0_started.

(** The rows of the detail query for [bill]: Ann (user 1) and Cy (user 3),
    Cy's first. *)
Definition detail_rows_jan : list Services.row :=
  [ {| Services.row_id := 3; Services.row_name := "Cy";
       Services.row_number := "333";
       Services.row_charge_type := "Monthly Charges";
       Services.row_total := Qc_of_Z 25 |};
    {| Services.row_id := 1; Services.row_name := "Ann";
       Services.row_number := "111";
       Services.row_charge_type := "Monthly Charges";
       Services.row_total := Qc_of_Z 40 |};
    {| Services.row_id := 3; Services.row_name := "Cy";
       Services.row_number := "333";
       Services.row_charge_type := "Account Monthly Charges Share";
       Services.row_total := Qc_of_Z 55 |};
    {| Services.row_id := 1; Services.row_name := "Ann";
       Services.row_number := "111";
       Services.row_charge_type := "Account Monthly Charges Share";
       Services.row_total := Qc_of_Z 55 |} ].

(** A ledger with one charge, and the fields of that charge. *)
Definition type_monthly : ChargeType :=
  {| type_id := 1; type_ := "monthly-charges"; type_text := "Monthly Charges";
     charge_category := 1 |}.

Definition charge_1 : Charge :=
  {| charge_id := 1; user := 1; charge_type := 1; billing_cycle := 1;
     amount := Qc_of_Z 40 |}.

Definition w_charged : world :=
  {| db := {| tbl_user := [ann]; tbl_category := []; tbl_type := [type_monthly];
              tbl_cycle := [cycle_jan]; tbl_charge := [charge_1] |};
     log := [] |}.

Definition split_holder_zero : world * (exn + frame) :=
  split_new_cycle slug self bill_holder_zero "Mar 10 - Apr 09" w0_started.

Definition split_last_zero : world * (exn + frame) :=
  split_new_cycle slug self bill_last_zero "Mar 10 - Apr 09" w0_started.

(** Bob's turn of the loop over the phone book on [bill], the holder's
    blocks having left a zero offset and a discount of 20. *)
Definition category_wireless : ChargeCategory :=
  {| category_id := 1; category := "wireless"; category_text := "Wireless" |}.

Definition locals_jan : locals :=
  {| offset := Some 0%Qc; w_act_m_disc := Some (Qc_of_Z 20) |}.

Definition bob_turn : world * (exn + gset nat) :=
  regular_user slug self (bill "$177.50") category_wireless cycle_jan locals_jan
    {[ 1%nat ]} ("Bob", "222") w0.

Definition users_of (r : world * (exn + gset nat)) : gset nat :=
  match r.2 with
  | inr users => users
  | inl _ => ∅
  end.



(** The double that [float] reads. *)
Definition double_of (text : string) : F64.double :=
  match F64.float text with
  | inr x => x
  | inl _ => SpecFloat.S754_nan
  end.

End Sample.

(** ** Further notions used in the statements *)

(** Every table of [d'] begins with the rows of [d], unchanged. *)
Definition grows (d d' : DB) : Prop :=
  tbl_user d `prefix_of` tbl_user d'
  ∧ tbl_category d `prefix_of` tbl_category d'
  ∧ tbl_type d `prefix_of` tbl_type d'
  ∧ tbl_cycle d `prefix_of` tbl_cycle d'
  ∧ tbl_charge d `prefix_of` tbl_charge d'.

(** [m] only appends rows, however it ends. *)
Definition extends {A} (m : M A) : Prop :=
  ∀ w, grows (db w) (db (m w).1).

(** The charges of cycle [c]. *)
Definition charges_of_cycle (c : BillingCycle) (d : DB) : list Charge :=
  filter (λ r, billing_cycle r = cycle_id c) (tbl_charge d).

(** A charge of the account holder's for a block of [elems]: its amount is
    the total extracted from the block. *)
Definition exact_charge (holder : nat) (c : BillingCycle) (elems : list elem)
    (r : Charge) : Prop :=
  user r = holder ∧ billing_cycle r = cycle_id c
  ∧ ∃ e label,
      e ∈ elems ∧ elem_label e = Some label
      ∧ extract_total (canonical_label label) (elem_text e) = inr (amount r).

(** The discount [d] is the amount of a line 'National Account Discount'
    of a monthly-charges block of [elems]. *)
Definition discount_of (elems : list elem) (d : Qc) : Prop :=
  ∃ e label g,
    e ∈ elems ∧ elem_label e = Some label
    ∧ Text.startswith label "Monthly Charges" = true
    ∧ Re.search Re.discount_pattern (elem_text e) = Some g
    ∧ Text.float g = inr d.

(** A charge of the account holder's for a wireless block of [elems]: its
    amount is the total extracted from the block, less the pooled fee net
    of a discount when the block is the monthly charges. *)
Definition holder_charge (holder : nat) (c : BillingCycle) (elems : list elem)
    (r : Charge) : Prop :=
  user r = holder ∧ billing_cycle r = cycle_id c
  ∧ ∃ e label x,
      e ∈ elems ∧ elem_label e = Some label
      ∧ extract_total (canonical_label label) (elem_text e) = inr x
      ∧ if Text.startswith label "Monthly Charges"
        then ∃ d, discount_of elems d ∧ amount r = (x - (w_act_m - d))%Qc
        else amount r = x.

(** A charge of a line other than the account holder's: the line is an
    entry of the phonebook with another number, and the amount is the total
    extracted from one of the line's blocks less the offset [offset l] that
    the loop over the holder's blocks has left. *)
Definition line_charge (self : AttBillSpliter) (b : browser)
    (c : BillingCycle) (l : locals) (r : Charge) : Prop :=
  billing_cycle r = cycle_id c
  ∧ ∃ name number elems e label x o,
      (name, number) ∈ phonebook self
      ∧ number ≠ user_number (account_holder self)
      ∧ wireless_elems b name number = Some elems
      ∧ e ∈ elems ∧ elem_label e = Some label
      ∧ extract_total (canonical_label label) (elem_text e) = inr x
      ∧ offset l = Some o
      ∧ amount r = (x - o)%Qc.

(** However [m] ends from [w], the table of charges is the one it found
    followed by rows that satisfy [Q]. *)
Definition adds_at {A} (Q : Charge → Prop) (m : M A) (w : world) : Prop :=
  ∃ added,
    tbl_charge (db (m w).1) = tbl_charge (db w) ++ added ∧ Forall Q added.

Section Reports.
Import Services.

(** The sum of the totals of rows, accumulated from zero in their order. *)
Definition sum_totals (l : list row) : Qc := foldl Qcplus 0%Qc (row_total <$> l).

(** The rows [run] are those at the end of [l] that share one number:
    they follow [before], whose last row has another number. *)
Definition trailing_run (l before run : list row) : Prop :=
  l = before ++ run
  ∧ (∀ x y, x ∈ run → y ∈ run → row_number x = row_number y)
  ∧ (∀ x y, last before = Some x → y ∈ run → row_number x ≠ row_number y)
  ∧ (run = [] → before = []).

(** The message of a user whose rows are [x :: run]: the greeting, one line
    for each row and the line of the total. *)
Definition message_of (bc : BillingCycle) (x : row) (run : list row)
  : list msg_line :=
  Greeting (row_name x) (row_number x) (cycle_name bc)
  :: ((λ y, ItemLine (row_charge_type y) (row_total y)) <$> x :: run)
  ++ [TotalLine (sum_totals (x :: run))].

(** [m] is the message of the rows [x :: run] of [l], all those in a row of
    one number [k]: the row before them, if any, and the row after them have
    another number, and their total is not zero. *)
Definition complete_message (bc : BillingCycle) (l : list row)
    (k : option string) (m : list msg_line) : Prop :=
  ∃ l1 x run y l2,
    l = l1 ++ x :: run ++ y :: l2
    ∧ k = Some (row_number x)
    ∧ Forall (λ z, row_number z = row_number x) run
    ∧ row_number y ≠ row_number x
    ∧ (∀ z, last l1 = Some z → row_number z ≠ row_number x)
    ∧ sum_totals (x :: run) ≠ 0%Qc
    ∧ m = message_of bc x run.

End Reports.

(** The aggregate of main.py, lines 436-445, taken on the ledger [d]: the
    sum of the charges of user [u] in cycle [c] whose type is of category
    [cat]. *)
Definition stored_total (u : nat) (c : BillingCycle) (cat : ChargeCategory)
    (d : DB) : Qc :=
  foldr Qcplus 0%Qc
    (flat_map (λ r,
       flat_map (λ t,
         if bool_decide (charge_type r = type_id t ∧ user r = u
                         ∧ billing_cycle r = cycle_id c
                         ∧ charge_category t = category_id cat)
         then [amount r] else [])
         (tbl_type d))
       (tbl_charge d)).

(** ** Further sample data *)

Module MoreSamples.
Import Sample.

(** The ledger when [bill] has been split. *)
Definition w_jan : world := (split_previous_bill slug self (bill "$177.50") w0).1.

(** The holder's wireless blocks on [bill]. *)
Definition elems_ann : list elem :=
  [monthly_150; block "Surcharges" "Total Surcharges $2.50"].

(** The messages sent for [bill] when the operator confirms every number,
    and the first of them. *)
Definition sent_jan : list (option string * list Services.msg_line * string) :=
  Services.notify_users_monthly_details (λ _, "y") "Pay Ann"
    (Some cycle_jan) detail_rows_jan.

Definition first_sent : option string * list Services.msg_line * string :=
  match sent_jan with
  | m :: _ => m
  | [] => (None, [], "")
  end.

(** The rows of [detail_rows_jan], one by one. *)
Definition ann_monthly : Services.row :=
  {| Services.row_id := 1; Services.row_name := "Ann";
     Services.row_number := "111";
     Services.row_charge_type := "Monthly Charges";
     Services.row_total := Qc_of_Z 40 |}.

Definition ann_share : Services.row :=
  {| Services.row_id := 1; Services.row_name := "Ann";
     Services.row_number := "111";
     Services.row_charge_type := "Account Monthly Charges Share";
     Services.row_total := Qc_of_Z 55 |}.

Definition cy_monthly : Services.row :=
  {| Services.row_id := 3; Services.row_name := "Cy";
     Services.row_number := "333";
     Services.row_charge_type := "Monthly Charges";
     Services.row_total := Qc_of_Z 25 |}.

Definition cy_share : Services.row :=
  {| Services.row_id := 3; Services.row_name := "Cy";
     Services.row_number := "333";
     Services.row_charge_type := "Account Monthly Charges Share";
     Services.row_total := Qc_of_Z 55 |}.

End MoreSamples.

(** * Properties *)

(** Membership in a list written with [++] and [::]. *)
Ltac list_mem :=
  rewrite ?elem_of_app, ?elem_of_cons, ?elem_of_nil; intuition (auto 8).

(** ** The monad *)

Lemma bind_run {A B} (m : M A) (k : A → M B) (w : world) :
  (m ≫= k) w =
  match m w with
  | (w', inr a) => k a w'
  | (w', inl e) => (w', inl e)
  end.
Proof. reflexivity. Qed.

Lemma bind_ok {A B} (m : M A) (k : A → M B) (w w' : world) (b : B) :
  (m ≫= k) w = (w', inr b) →
  ∃ w1 a, m w = (w1, inr a) ∧ k a w1 = (w', inr b).
Proof.
  rewrite bind_run. destruct (m w) as [w1 [e|a]]; [discriminate|]. eauto.
Qed.

(** ** The guard against a second run (lines 146-155) *)

Section Guard.
Variable slugify : string → string.

(** C7. When the name of the cycle shown on the page is that of a row of
    BillingCycle, [split_previous_bill] returns without an exception and
    leaves the five tables as they were; it only logs. *)
Theorem split_processed_cycle_no_write (self : AttBillSpliter) (b : browser)
    (w : world) (title : string) (c : BillingCycle) :
  new_charge_title b = Some title →
  c ∈ tbl_cycle (db w) →
  cycle_name c = Text.drop 16 title →
  split_previous_bill slugify self b w =
    ({| db := db w;
        log := log w ++ [Info "Start processing new bill...";
                         Warning "Billing Cycle %s already processed."] |},
     inr ()).
Proof.
  intros Ht Hc Hn. unfold split_previous_bill.
  rewrite bind_run. cbn [logger]. rewrite bind_run, Ht. cbn [find_element mret M_ret].
  rewrite bind_run. unfold BillingCycle_exists. cbn [db].
  assert (existsb (λ c0, bool_decide (cycle_name c0 = Text.drop 16 title))
            (tbl_cycle (db w)) = true) as ->.
  { apply existsb_exists. exists c. split; [by apply list_elem_of_In|].
    by apply bool_decide_eq_true. }
  unfold logger. cbn [db log]. by rewrite <- app_assoc.
Qed.

End Guard.

(** ** Binary64: rounding, as far as the check of the totals needs it *)

Module F64Facts.

Local Open Scope Z_scope.


(** *** The number of binary digits *)



(** *** Shifting to the right, with what is lost *)








(** *** Rounding a mantissa and an exponent to a double *)








(** *** The comparison with the double [0.01] *)



(** *** Values *)








(** *** The difference of two doubles against the double [0.01] *)









(** *** The doubles that are read and computed are in canonical form *)













End F64Facts.

(** ** The check against the bill's total (lines 447-458) *)

Section Reconciliation.
Variable slugify : string → string.



End Reconciliation.

(** ** Duplicate charges *)

Section Duplicates.

Lemma existsb_same_triple (w : world) (u : nat) (t : ChargeType)
    (c : BillingCycle) (r : Charge) :
  stored w u t c r →
  existsb (same_triple u (type_id t) (cycle_id c)) (tbl_charge (db w)) = true.
Proof.
  intros (Hin & Hu & Ht & Hc). apply existsb_exists. exists r.
  split; [by apply list_elem_of_In|]. by apply bool_decide_eq_true.
Qed.

(** C8. An insert whose triple (user, charge type, cycle) a stored row has
    already is rejected with [IntegrityError] and leaves the ledger as it
    was, so that no row is added and none is changed; the handler around it
    appends one warning to the log and hands control to what follows the
    [try] statement, whatever that is: the rest of the turn and of the
    loop. *)
Theorem duplicate_charge_rejected {B} (u : nat) (t : ChargeType)
    (c : BillingCycle) (a : Qc) (w : world) (r : Charge) (k : bool → M B) :
  stored w u t c r →
  Charge_save u t c a w = (w, inl IntegrityError)
  ∧ try_save u t c a w =
      ({| db := db w;
          log := log w ++ [DuplicateWarning u (type_id t) (cycle_id c) a] |},
       inr false)
  ∧ (try_save u t c a ≫= k) w =
      k false {| db := db w;
                 log := log w ++ [DuplicateWarning u (type_id t) (cycle_id c) a] |}.
Proof.
  intros Hr. apply existsb_same_triple in Hr.
  assert (Charge_save u t c a w = (w, inl IntegrityError)) as Hsave.
  { unfold Charge_save. by rewrite Hr. }
  assert (try_save u t c a w =
      ({| db := db w;
          log := log w ++ [DuplicateWarning u (type_id t) (cycle_id c) a] |},
       inr false)) as Htry.
  { unfold try_save. by rewrite Hsave. }
  split_and!; [done|done|]. by rewrite bind_run, Htry.
Qed.

End Duplicates.

(** ** The reports and the notification path *)

Module ServicesFacts.
Import Services.

#[local] Instance le_id_trans : Transitive le_id.
Proof. intros x y z. unfold le_id. lia. Qed.

#[local] Instance le_id_total : Total le_id.
Proof. intros x y. unfold le_id. lia. Qed.

Lemma order_by_user_id_sorted (rows : list row) :
  StronglySorted le_id (order_by_user_id rows).
Proof. apply StronglySorted_merge_sort; apply _. Qed.

Lemma order_by_user_id_perm (rows : list row) : order_by_user_id rows ≡ₚ rows.
Proof. apply merge_sort_Permutation. Qed.

(** Between two rows of one user there are rows of that user only. *)
Lemma order_by_user_id_grouped (rows l1 l2 l3 : list row) (r r' x : row) :
  order_by_user_id rows = l1 ++ r :: l2 ++ r' :: l3 →
  row_id r = row_id r' → x ∈ l2 → row_id x = row_id r.
Proof.
  intros Heq Hid Hx. pose proof (order_by_user_id_sorted rows) as Hs.
  rewrite Heq in Hs. apply StronglySorted_app_1_r in Hs.
  assert (le_id r x) as H1.
  { apply (StronglySorted_app_1_elem_of le_id [r] (l2 ++ r' :: l3)); [done|list_mem|list_mem]. }
  assert (le_id x r') as H2.
  { apply StronglySorted_app_1_r with (l1 := [r]) in Hs.
    apply (StronglySorted_app_1_elem_of le_id l2 (r' :: l3)); [done|done|list_mem]. }
  unfold le_id in *. lia.
Qed.

Lemma details_step_printed (s : details_state) (u : row) :
  detail_rows (printed (details_step s u)) =
  detail_rows (printed s) ++ [(row_charge_type u, row_total u)].
Proof.
  unfold details_step, detail_rows.
  repeat case_bool_decide; cbn [printed]; rewrite ?omap_app; cbn; by rewrite ?app_nil_r.
Qed.

(** The item lines of the detail report are the rows of its query, one
    for one, in the order of [.order_by(User.id)]. *)
Lemma details_rows_in_user_order (bc : BillingCycle) (rows : list row) :
  detail_rows (print_wireless_monthly_details (Some bc) rows) =
  (λ r, (row_charge_type r, row_total r)) <$> order_by_user_id rows.
Proof.
  unfold print_wireless_monthly_details.
  generalize (order_by_user_id rows). intros l.
  assert (∀ s, detail_rows (printed (foldl details_step s l)) =
               detail_rows (printed s) ++ ((λ r, (row_charge_type r, row_total r)) <$> l)) as H.
  { induction l as [|x l IH]; intros s; cbn [foldl fmap list_fmap].
    - by rewrite app_nil_r.
    - rewrite IH, details_step_printed, <- app_assoc. done. }
  specialize (H {| current_user_num := ""; current_user_total := 0%Qc;
                   wireless_total := 0%Qc; printed := [] |}).
  cbn [printed] in H. unfold detail_rows in *.
  case_bool_decide; rewrite !omap_app, H; cbn; by rewrite ?app_nil_r.
Qed.

(** The user lines of the summary report are the rows of its query, one
    for one, in the order in which the database yields them. *)
Lemma summary_rows_in_query_order (bc : BillingCycle) (rows : list row) :
  summary_rows (print_wireless_monthly_summary (Some bc) rows) =
  (λ r, (row_name r, row_number r, row_total r)) <$> rows.
Proof.
  unfold print_wireless_monthly_summary.
  assert (∀ acc : list line * Qc,
    summary_rows
      (foldl (λ '(out, wireless_total) u,
                (out ++ [SummaryRow (row_name u) (row_number u) (row_total u)],
                 (wireless_total + row_total u)%Qc)) acc rows).1 =
    summary_rows acc.1 ++ ((λ r, (row_name r, row_number r, row_total r)) <$> rows)) as H.
  { induction rows as [|u rows IH]; intros [out wt]; cbn [foldl fmap list_fmap].
    - by rewrite app_nil_r.
    - rewrite IH. cbn [fst]. unfold summary_rows. rewrite omap_app. cbn.
      by rewrite <- app_assoc. }
  specialize (H ([Rule; Title (cycle_name bc); Rule], 0%Qc)).
  destruct (foldl _ _ rows) as [out wt]. cbn [fst] in H.
  unfold summary_rows in *. rewrite omap_app, H. cbn. by rewrite app_nil_r.
Qed.

(** C9. The summary report prints the rows of its query in the order in
    which the database yields them: the query of lines 52-60 has no
    ORDER BY clause, unlike the query of the detail report.  When the
    database yields Cy's row (user 3) before Ann's (user 1), so does the
    report. *)
Theorem summary_follows_query_order :
  print_wireless_monthly_summary (Some Sample.cycle_jan) Sample.summary_rows =
  [Rule; Title "Jan 10 - Feb 09"; Rule;
   SummaryRow "Cy" "333" (Qc_of_Z 80);
   SummaryRow "Ann" "111" (Qc_of_Z 97);
   Rule; WirelessTotal (0 + Qc_of_Z 80 + Qc_of_Z 97)%Qc].
Proof. reflexivity. Qed.

(** *** The mapping of messages *)

Lemma notify_fold_inv (bc : BillingCycle) (l : list row) :
  notify_inv bc l (foldl (notify_step bc) notify_init l).
Proof.
  induction l as [|x l IH] using rev_ind.
  - split_and!; [done| |done]. intros k m. cbn. by rewrite lookup_empty.
  - rewrite foldl_app. cbn [foldl].
    destruct IH as (Hcur & Hkeys & Hrun).
    set (s := foldl (notify_step bc) notify_init l) in *.
    unfold notify_inv. rewrite last_snoc. unfold notify_step.
    case_bool_decide as Hne.
    + (* the number changes: a new message is begun *)
      assert (∀ k m,
        messages (if bool_decide (n_current_user_total s ≠ 0%Qc)
                  then {| n_current_user_num := n_current_user_num s;
                          n_current_user_total := n_current_user_total s;
                          messages := <[n_current_user_num s :=
                                          message s ++ [TotalLine (n_current_user_total s)]]>
                                        (messages s);
                          message := message s ++ [TotalLine (n_current_user_total s)] |}
                  else s) !! k = Some m →
        ∃ l1 r1 r2 l2, l ++ [x] = l1 ++ r1 :: r2 :: l2 ∧ k = Some (row_number r1)
                       ∧ row_number r2 ≠ row_number r1) as Hkeys'.
      { intros k m. case_bool_decide as Htot; cbn [messages].
        - rewrite lookup_insert. case_decide as Hk.
          + intros _. subst k. destruct (last l) as [r|] eqn:Hlast.
            * apply last_Some in Hlast as [l' ->].
              exists l', r, x, []. rewrite <- app_assoc. split_and!; [done|by rewrite Hcur|].
              intros Heq. apply Hne. rewrite Hcur. cbn. by rewrite Heq.
            * by destruct Hrun as [Hz _].
          + intros (l1 & r1 & r2 & l2 & -> & -> & Hd)%Hkeys.
            exists l1, r1, r2, (l2 ++ [x]). by rewrite <- !app_assoc.
        - intros (l1 & r1 & r2 & l2 & -> & -> & Hd)%Hkeys.
          exists l1, r1, r2, (l2 ++ [x]). by rewrite <- !app_assoc. }
      split_and!.
      * by case_bool_decide.
      * intros k m Hk. apply (Hkeys' k m). by case_bool_decide.
      * exists l, x, []. split_and!; [done|by repeat constructor| | |].
        -- intros y Hy Heq. apply Hne. rewrite Hcur, Hy. cbn. by rewrite Heq.
        -- by case_bool_decide.
        -- case_bool_decide; cbn; done.
    + (* the same number: the message grows *)
      destruct (last l) as [r|] eqn:Hlast; [|by rewrite Hcur in Hne].
      rewrite Hcur in Hne. cbn in Hne. injection Hne as Hne.
      destruct Hrun as (l1 & y & run & -> & Hall & Hprev & Hmsg & Htot).
      split_and!.
      * cbn. by rewrite Hcur, Hne.
      * intros k m (l1' & r1 & r2 & l2 & Heq & -> & Hd)%Hkeys.
        exists l1', r1, r2, (l2 ++ [x]). rewrite Heq. by rewrite <- !app_assoc.
      * exists l1, y, (run ++ [x]). split_and!.
        -- by rewrite <- app_assoc.
        -- rewrite app_comm_cons. apply Forall_app. split.
           ++ eapply Forall_impl; [exact Hall|]. cbn. intros ? ->. done.
           ++ by repeat constructor.
        -- intros z Hz. rewrite Hne. by apply Hprev.
        -- cbn [message]. rewrite Hmsg, Hne. cbn. by rewrite !fmap_app.
        -- cbn [n_current_user_total]. rewrite Htot. cbn.
           by rewrite fmap_app, foldl_app.
Qed.

(** C10. The mapping that [notify_users_monthly_details] hands to its
    confirmation loop holds a message under a number only if the rows,
    taken in the order of the query, go on with a row of another number
    after a row of that number.  The number of the last row is therefore
    not a key of it, although the message of that user is complete in the
    local [message]: the greeting, one item for each of the user's rows
    and, the total being nonzero, the line of the total. *)
Theorem notify_last_user_left_out (bc : BillingCycle) (rows : list row) (r : row) :
  (∀ r1 r2, r1 ∈ rows → r2 ∈ rows →
            row_id r1 = row_id r2 ↔ row_number r1 = row_number r2) →
  last (order_by_user_id rows) = Some r →
  let s := notify_collect bc rows in
  (∀ k m, messages s !! k = Some m →
     ∃ l1 r1 r2 l2, order_by_user_id rows = l1 ++ r1 :: r2 :: l2
                    ∧ k = Some (row_number r1) ∧ row_number r2 ≠ row_number r1)
  ∧ messages s !! Some (row_number r) = None
  ∧ ∃ l1 x run,
      order_by_user_id rows = l1 ++ x :: run
      ∧ Forall (λ y, row_number y = row_number r) (x :: run)
      ∧ (∀ y, last l1 = Some y → row_number y ≠ row_number r)
      ∧ let total := foldl Qcplus 0%Qc (row_total <$> x :: run) in
        message s =
          Greeting (row_name x) (row_number r) (cycle_name bc)
          :: ((λ y, ItemLine (row_charge_type y) (row_total y)) <$> x :: run)
          ++ (if bool_decide (total ≠ 0%Qc) then [TotalLine total] else []).
Proof.
  intros Huniq Hlast s.
  pose proof (notify_fold_inv bc (order_by_user_id rows)) as (Hcur & Hkeys & Hrun).
  assert (messages s = messages (foldl (notify_step bc) notify_init (order_by_user_id rows)))
    as Hm.
  { subst s. unfold notify_collect. by case_bool_decide. }
  assert (∀ k m, messages s !! k = Some m →
     ∃ l1 r1 r2 l2, order_by_user_id rows = l1 ++ r1 :: r2 :: l2
                    ∧ k = Some (row_number r1) ∧ row_number r2 ≠ row_number r1) as Hk.
  { rewrite Hm. exact Hkeys. }
  split_and!; [exact Hk| |].
  - destruct (messages s !! Some (row_number r)) as [m|] eqn:Hl; [|done].
    exfalso. apply Hk in Hl as (l1 & r1 & r2 & l2 & Heq & Hnum & Hd).
    injection Hnum as Hnum.
    pose proof (order_by_user_id_sorted rows) as Hs.
    assert (∀ y, y ∈ order_by_user_id rows → y ∈ rows) as Hin.
    { intros y. by rewrite order_by_user_id_perm. }
    assert (r ∈ r2 :: l2) as Hr.
    { rewrite Heq in Hlast. rewrite last_app_cons, last_cons_cons in Hlast.
      apply last_Some in Hlast as [l' Hl']. rewrite Hl'. list_mem. }
    apply elem_of_cons in Hr.
    rewrite Heq in Hs, Hin. apply StronglySorted_app_1_r in Hs.
    assert (row_id r = row_id r1) as Hid.
    { apply Huniq; [apply Hin; list_mem|apply Hin; list_mem|done]. }
    assert (le_id r1 r2) as H1.
    { apply (StronglySorted_app_1_elem_of le_id [r1] (r2 :: l2)); [done|list_mem|list_mem]. }
    assert (le_id r2 r) as H2.
    { apply StronglySorted_app_1_r with (l1 := [r1]) in Hs.
      destruct Hr as [->|Hr]; [done|].
      apply (StronglySorted_app_1_elem_of le_id [r2] l2); [done|list_mem|done]. }
    apply Hd. apply Huniq; [apply Hin; list_mem|apply Hin; list_mem|].
    unfold le_id in *. lia.
  - rewrite Hlast in Hrun. destruct Hrun as (l1 & x & run & Heq & Hall & Hprev & Hmsg & Htot).
    exists l1, x, run. split_and!; [done|done|done|]. cbn zeta.
    subst s. unfold notify_collect. rewrite <- Htot.
    case_bool_decide; cbn [message]; rewrite Hmsg; [done|by rewrite app_nil_r].
Qed.

End ServicesFacts.

(** ** The reports and the messages, in closed form *)

Module ReportFacts.
Import Services.

Lemma foldl_Qcplus (a : Qc) (l : list Qc) :
  foldl Qcplus a l = (a + foldl Qcplus 0 l)%Qc.
Proof.
  revert a. induction l as [|x l IH]; intros a; cbn [foldl]; [ring|].
  rewrite (IH (a + x)%Qc), (IH (0 + x)%Qc). ring.
Qed.

Lemma sum_totals_app (l1 l2 : list row) :
  sum_totals (l1 ++ l2) = (sum_totals l1 + sum_totals l2)%Qc.
Proof.
  unfold sum_totals. by rewrite fmap_app, foldl_app, foldl_Qcplus.
Qed.

Lemma sum_totals_snoc (l : list row) (u : row) :
  sum_totals (l ++ [u]) = (sum_totals l + row_total u)%Qc.
Proof. unfold sum_totals. by rewrite fmap_app, foldl_app. Qed.

(** *** The summary *)

Lemma summary_fold (rows : list row) (out : list line) (wt : Qc) :
  foldl (λ '(out, wireless_total) u,
           (out ++ [SummaryRow (row_name u) (row_number u) (row_total u)],
            (wireless_total + row_total u)%Qc)) (out, wt) rows
  = (out ++ ((λ u, SummaryRow (row_name u) (row_number u) (row_total u)) <$> rows),
     (wt + sum_totals rows)%Qc).
Proof.
  revert out wt. induction rows as [|u rows IH]; intros out wt; cbn [foldl].
  - rewrite app_nil_r. f_equal. unfold sum_totals. cbn. ring.
  - rewrite IH. f_equal; [by rewrite <- app_assoc|].
    change (u :: rows) with ([u] ++ rows). rewrite sum_totals_app.
    unfold sum_totals at 2. cbn. ring.
Qed.

(** X9. The summary of a cycle is the three lines of its heading, one line
    for each row of the query in the order of the query, a rule, and the
    line of 'Wireless Total', whose amount is the sum of the totals of the
    lines printed. *)
Theorem summary_total_is_sum_of_lines (bc : BillingCycle) (rows : list row) :
  print_wireless_monthly_summary (Some bc) rows =
    Rule :: Title (cycle_name bc) :: Rule
    :: ((λ u, SummaryRow (row_name u) (row_number u) (row_total u)) <$> rows)
    ++ [Rule; WirelessTotal (sum_totals rows)].
Proof.
  unfold print_wireless_monthly_summary. rewrite summary_fold.
  cbn. replace (Q2Qc 0 + sum_totals rows)%Qc with (sum_totals rows) by ring. done.
Qed.

(** *** The details *)

(** What the loop of lines 116-126 maintains, for the rows [l] walked so
    far. *)
Lemma details_fold_inv (l : list row) :
  let s := foldl details_step
             {| current_user_num := ""; current_user_total := 0%Qc;
                wireless_total := 0%Qc; printed := [] |} l in
  ∃ before run,
    trailing_run l before run
    ∧ (∀ x, x ∈ run → row_number x = current_user_num s)
    ∧ (∀ x, last before = Some x → row_number x ≠ current_user_num s)
    ∧ current_user_total s = sum_totals run
    ∧ wireless_total s = sum_totals before.
Proof.
  induction l as [|u l IH] using rev_ind.
  - exists [], []. split_and!; try done.
    + split_and!; try done. intros x y Hx. by apply elem_of_nil in Hx.
    + intros x Hx. by apply elem_of_nil in Hx.
  - rewrite foldl_app. cbn [foldl]. cbn zeta in IH.
    destruct IH as (before & run & (Hl & Hsame & Hother & Hnil) & Hcur & Hprev & Htot & Hwt).
    set (s := foldl details_step _ l) in *. unfold details_step.
    case_bool_decide as Hne.
    + (* another number: the rows walked so far come before the run *)
      exists l, [u].
      assert (wireless_total
                (if bool_decide (current_user_total s ≠ 0%Qc)
                 then {| current_user_num := current_user_num s;
                         current_user_total := current_user_total s;
                         wireless_total := (wireless_total s + current_user_total s)%Qc;
                         printed := printed s ++ [UserTotal (current_user_total s)] |}
                 else s) = sum_totals l) as Hwt'.
      { rewrite Hl, sum_totals_app, <- Hwt, <- Htot.
        case_bool_decide as Hz; cbn; [done|].
        try apply dec_stable in Hz. rewrite Hz. ring. }
      assert (∀ x, last l = Some x → row_number x ≠ row_number u) as Hlast.
      { intros x Hx. destruct run as [|r run _] using rev_ind.
        - rewrite (Hnil eq_refl) in Hl. subst l. done.
        - rewrite Hl, app_assoc, last_snoc in Hx. injection Hx as <-.
          rewrite (Hcur r) by list_mem. congruence. }
      split_and!; cbn.
      * split_and!; [done| | |done].
        -- by intros x y ->%list_elem_of_singleton ->%list_elem_of_singleton.
        -- intros x y Hx ->%list_elem_of_singleton. by apply Hlast.
      * by intros x ->%list_elem_of_singleton.
      * done.
      * unfold sum_totals. cbn. done.
      * done.
    + (* the same number: the run goes on *)
      try apply dec_stable in Hne. exists before, (run ++ [u]). split_and!; cbn.
      * split_and!.
        -- by rewrite Hl, app_assoc.
        -- intros x y Hx Hy.
           assert (∀ z, z ∈ run ++ [u] → row_number z = current_user_num s) as Hall.
           { intros z [Hz| ->%list_elem_of_singleton]%elem_of_app; [by apply Hcur|done]. }
           by rewrite (Hall x), (Hall y).
        -- intros x y Hx [Hy| ->%list_elem_of_singleton]%elem_of_app.
           ++ by apply Hother.
           ++ rewrite Hne. by apply Hprev.
        -- by intros []%app_nil.
      * intros z [Hz| ->%list_elem_of_singleton]%elem_of_app; [by apply Hcur|done].
      * done.
      * by rewrite sum_totals_snoc, Htot.
      * done.
Qed.

(** X10. The detail report ends with the line of 'Wireless Total', before
    which comes the line of the last user's total when that total is not
    zero.  The amount of 'Wireless Total' is the sum over the rows that
    come before those of the last user: the charges of the user walked last
    are not in it. *)
Theorem details_total_leaves_out_last_user (bc : BillingCycle) (rows : list row) :
  ∃ before run out,
    trailing_run (order_by_user_id rows) before run
    ∧ print_wireless_monthly_details (Some bc) rows =
        out
        ++ (if bool_decide (sum_totals run ≠ 0%Qc)
            then [UserTotal (sum_totals run)] else [])
        ++ [WirelessTotal (sum_totals before)].
Proof.
  unfold print_wireless_monthly_details.
  destruct (details_fold_inv (order_by_user_id rows))
    as (before & run & Hrun & _ & _ & Htot & Hwt).
  cbn zeta in *. set (s := foldl details_step _ _) in *.
  exists before, run, (printed s). split; [done|].
  rewrite Htot, Hwt. case_bool_decide; [by rewrite <- app_assoc|done].
Qed.

(** *** The messages *)

Lemma complete_message_snoc (bc : BillingCycle) (l : list row) (u : row)
    (k : option string) (m : list msg_line) :
  complete_message bc l k m → complete_message bc (l ++ [u]) k m.
Proof.
  intros (l1 & x & run & y & l2 & -> & H).
  exists l1, x, run, y, (l2 ++ [u]). split; [|done].
  by rewrite <- !app_assoc, <- !app_comm_cons, <- app_assoc.
Qed.

Lemma messages_complete (bc : BillingCycle) (l : list row) :
  ∀ k m, messages (foldl (notify_step bc) notify_init l) !! k = Some m →
         complete_message bc l k m.
Proof.
  induction l as [|u l IH] using rev_ind; intros k m.
  - cbn. by rewrite lookup_empty.
  - rewrite foldl_app. cbn [foldl].
    pose proof (ServicesFacts.notify_fold_inv bc l) as (Hcur & _ & Hrun).
    set (s := foldl (notify_step bc) notify_init l) in *.
    unfold notify_step. case_bool_decide as Hne; cbn [messages];
      [|intros Hm; by apply complete_message_snoc, IH].
    case_bool_decide as Hz; cbn [messages];
      [|intros Hm; by apply complete_message_snoc, IH].
    destruct (decide (k = n_current_user_num s)) as [->|Hk].
    2: { rewrite lookup_insert_ne by done.
         intros Hm. by apply complete_message_snoc, IH. }
    rewrite lookup_insert_eq. intros [= <-].
    destruct (last l) as [r|] eqn:Hlast; [|by destruct Hrun as [Hzero _]].
    destruct Hrun as (l1 & x & run & Hl & Hsame & Hprev & Hmsg & Htot).
    apply Forall_cons in Hsame as [Hx Hsame].
    exists l1, x, run, u, []. rewrite Hcur in Hne |- *. cbn in Hne |- *.
    split_and!.
    + by rewrite Hl, <- !app_assoc, <- !app_comm_cons.
    + by rewrite Hx.
    + eapply Forall_impl; [exact Hsame|]. cbn. intros z ->. done.
    + rewrite Hx. congruence.
    + intros z Hz'. rewrite Hx. by apply Hprev.
    + by rewrite Htot in Hz.
    + rewrite Hmsg, Htot. unfold message_of, sum_totals.
      by rewrite Hx, <- app_comm_cons.
Qed.

(** X11. A message that [notify_users_monthly_details] sends goes to a
    number the operator confirmed, with the payment message given, and is
    complete: the greeting of the user, one line for each of the user's
    rows, which are all the rows in a row of that number, and the line of
    their total, which is not zero; and rows of another number come after
    them in the order of the query. *)
Theorem sent_messages_are_complete (answer : option string → string)
    (payment_msg : string) (bc : BillingCycle) (rows : list row)
    (num : option string) (msg : list msg_line) (pay : string) :
  (num, msg, pay) ∈ notify_users_monthly_details answer payment_msg (Some bc) rows →
  answer num ∈ ["y"; "Y"; "yes"; "Yes"; "YES"]
  ∧ pay = payment_msg
  ∧ complete_message bc (order_by_user_id rows) num msg.
Proof.
  unfold notify_users_monthly_details.
  intros ([k m] & Hkm & Hsend)%list_elem_of_omap.
  case_bool_decide as Hyes; [|done]. injection Hsend as <- <- <-.
  split_and!; [done|done|].
  apply elem_of_map_to_list in Hkm. apply messages_complete.
  unfold notify_collect in Hkm. by case_bool_decide.
Qed.

Lemma run_unique (n : string) (l1 l1' run run' : list row) (x x' : row) :
  l1 ++ x :: run = l1' ++ x' :: run' →
  Forall (λ z, row_number z = n) (x :: run) →
  Forall (λ z, row_number z = n) (x' :: run') →
  (∀ z, last l1 = Some z → row_number z ≠ n) →
  (∀ z, last l1' = Some z → row_number z ≠ n) →
  l1 = l1'.
Proof.
  intros Heq Hrun Hrun' Hl1 Hl1'. rewrite Forall_forall in Hrun, Hrun'.
  apply app_eq_inv in Heq as [(k & -> & Hk)|(k & -> & Hk)].
  - destruct k as [|z k _] using rev_ind; [by rewrite app_nil_r|].
    exfalso. apply (Hl1 z); [by rewrite app_assoc, last_snoc|].
    apply Hrun'. rewrite Hk. list_mem.
  - destruct k as [|z k _] using rev_ind; [by rewrite app_nil_r|].
    exfalso. apply (Hl1' z); [by rewrite app_assoc, last_snoc|].
    apply Hrun. rewrite Hk. list_mem.
Qed.

Lemma messages_kept (bc : BillingCycle) (s : notify_state) (u : row)
    (k : option string) :
  is_Some (messages s !! k) → is_Some (messages (notify_step bc s u) !! k).
Proof.
  intros Hk. unfold notify_step. repeat case_bool_decide; cbn [messages]; try done.
  apply lookup_insert_is_Some. destruct (decide (n_current_user_num s = k)); auto.
Qed.

Lemma messages_has (bc : BillingCycle) (l : list row) :
  ∀ l1 x run y l2,
    l = l1 ++ x :: run ++ y :: l2 →
    Forall (λ z, row_number z = row_number x) run →
    row_number y ≠ row_number x →
    (∀ z, last l1 = Some z → row_number z ≠ row_number x) →
    sum_totals (x :: run) ≠ 0%Qc →
    is_Some (messages (foldl (notify_step bc) notify_init l) !! Some (row_number x)).
Proof.
  induction l as [|u l IH] using rev_ind; intros l1 x run y l2 Hl Hsame Hy Hl1 Hsum.
  - by destruct l1.
  - rewrite foldl_app. cbn [foldl].
    destruct l2 as [|u' l2 _] using rev_ind.
    2: { apply messages_kept, (IH l1 x run y l2); try done.
         assert (l ++ [u] = (l1 ++ x :: run ++ y :: l2) ++ [u']) as Hl'
           by by rewrite Hl, <- !app_assoc, <- !app_comm_cons, <- app_assoc.
         by apply app_inj_tail in Hl' as [-> _]. }
    assert (l ++ [u] = (l1 ++ x :: run) ++ [y]) as Hl'
      by by rewrite Hl, <- !app_assoc, <- !app_comm_cons.
    apply app_inj_tail in Hl' as [-> ->]. clear Hl IH.
    pose proof (ServicesFacts.notify_fold_inv bc (l1 ++ x :: run)) as (Hcur & _ & Hrun).
    set (s := foldl (notify_step bc) notify_init _) in *.
    assert (∃ r, last (l1 ++ x :: run) = Some r ∧ row_number r = row_number x)
      as (r & Hlast & Hr).
    { destruct run as [|r run _] using rev_ind.
      - exists x. by rewrite last_snoc.
      - exists r. rewrite app_comm_cons, app_assoc, last_snoc. split; [done|].
        rewrite Forall_forall in Hsame. apply Hsame. list_mem. }
    rewrite Hlast in Hcur, Hrun.
    destruct Hrun as (l1' & x' & run' & Heq & Hsame' & Hprev & _ & Htot).
    assert (l1 = l1') as <-.
    { apply (run_unique (row_number r) l1 l1' run run' x x'); try done.
      - rewrite Hr. by constructor.
      - intros z Hz. rewrite Hr. by apply Hl1. }
    apply app_inv_head in Heq. injection Heq as <- <-.
    unfold notify_step. rewrite Hcur.
    rewrite bool_decide_eq_true_2 by (cbn; congruence).
    rewrite bool_decide_eq_true_2 by by rewrite Htot.
    cbn [messages n_current_user_num fmap option_fmap option_map]. rewrite Hr.
    by rewrite lookup_insert_eq.
Qed.

(** X12. A user whose rows are followed by rows of another number in the
    order of the query, whose total is not zero and whose number the
    operator confirms, is sent a message, with the payment message given. *)
Theorem confirmed_users_are_notified (answer : option string → string)
    (payment_msg : string) (bc : BillingCycle) (rows l1 run l2 : list row)
    (x y : row) :
  order_by_user_id rows = l1 ++ x :: run ++ y :: l2 →
  Forall (λ z, row_number z = row_number x) run →
  row_number y ≠ row_number x →
  (∀ z, last l1 = Some z → row_number z ≠ row_number x) →
  sum_totals (x :: run) ≠ 0%Qc →
  answer (Some (row_number x)) ∈ ["y"; "Y"; "yes"; "Yes"; "YES"] →
  ∃ msg,
    (Some (row_number x), msg, payment_msg)
      ∈ notify_users_monthly_details answer payment_msg (Some bc) rows.
Proof.
  intros Hl Hsame Hy Hl1 Hsum Hyes.
  destruct (messages_has bc (order_by_user_id rows) l1 x run y l2)
    as [msg Hmsg]; try done.
  exists msg. unfold notify_users_monthly_details. apply list_elem_of_omap.
  exists (Some (row_number x), msg). split.
  - apply elem_of_map_to_list. unfold notify_collect. by case_bool_decide.
  - by rewrite bool_decide_eq_true_2.
Qed.

End ReportFacts.

(** ** The extraction of an amount (lines 190-195) *)

Module ExtractFacts.
Import Locate.

Lemma drop_drop (n m : nat) (s : string) :
  Text.drop n (Text.drop m s) = Text.drop (m + n) s.
Proof.
  revert s. induction m as [|m IH]; intros s; [done|].
  destruct s as [|c s]; cbn; [by destruct n|]. apply IH.
Qed.

Lemma append_nil (s : string) : "" +:+ s = s.
Proof. reflexivity. Qed.

Lemma append_cons (c : ascii) (p s : string) : String c p +:+ s = String c (p +:+ s).
Proof. reflexivity. Qed.

Lemma drop_app_length (p s : string) : Text.drop (String.length p) (p +:+ s) = s.
Proof. induction p as [|c p IH]; [done|]. exact IH. Qed.

Lemma prefix_app (p s : string) : String.prefix p (p +:+ s) = true.
Proof.
  induction p as [|c p IH]; [by destruct s|].
  rewrite append_cons. cbn [String.prefix].
  destruct (Ascii.ascii_dec c c); [done|congruence].
Qed.

Lemma prefix_split (p s : string) :
  String.prefix p s = true → s = p +:+ Text.drop (String.length p) s.
Proof.
  revert s. induction p as [|c p IH]; intros s; [done|].
  destruct s as [|c' s]; cbn; [done|].
  destruct (Ascii.ascii_dec c c') as [<-|]; [|done].
  intros H. rewrite append_cons. f_equal. by apply IH.
Qed.

(** *** The matcher against the words of the specification *)

Lemma match_lit (p : string) (r : Re.regex) (s : string) :
  Re.match_here (Re.lit p ++ r) s =
  if String.prefix p s then Re.match_here r (Text.drop (String.length p) s) else None.
Proof.
  revert s. induction p as [|c p IH]; intros s; cbn [Re.lit app String.length Text.drop].
  - by destruct s.
  - cbn [Re.match_here]. destruct s as [|c' s]; [done|]. cbn [String.prefix].
    destruct (Ascii.ascii_dec c c') as [<-|Hne].
    + rewrite Ascii.eqb_refl. apply IH.
    + by apply Ascii.eqb_neq in Hne as ->.
Qed.

Lemma match_group (s : string) :
  Re.match_here [Re.GroupPlus Text.is_digit_or_dot] s =
  if starts_amount s then Some (numeral s) else None.
Proof.
  induction s as [|c s IH]; [done|].
  cbn [Re.match_here starts_amount numeral] in *.
  destruct (Text.is_digit_or_dot c); [|done].
  rewrite IH. destruct s as [|c' s]; [done|].
  cbn [starts_amount numeral]. by destruct (Text.is_digit_or_dot c').
Qed.

Lemma match_tail (s : string) :
  Re.match_here [Re.LazyAny; Re.Char "$"; Re.GroupPlus Text.is_digit_or_dot] s =
  first_amount s.
Proof.
  induction s as [|c s IH]; [done|].
  cbn [first_amount]. rewrite <- IH. clear IH.
  pose proof (match_group s) as Hg.
  cbn [Re.match_here] in *.
  destruct (Ascii.eqb "$" c); cbn [andb]; [|done].
  rewrite Hg. by destruct (starts_amount s).
Qed.

Lemma first_amount_drop (n : nat) (s : string) :
  first_amount s = None → first_amount (Text.drop n s) = None.
Proof.
  revert s. induction n as [|n IH]; intros s; [done|].
  destruct s as [|c s]; [done|]. cbn [Text.drop first_amount].
  destruct (Ascii.eqb "$" c && starts_amount s); [done|]. apply IH.
Qed.

Lemma after_first_drop (p s t : string) :
  after_first p s = Some t → ∃ i, t = Text.drop (i + String.length p) s.
Proof.
  induction s as [|c s IH]; cbn [after_first].
  - destruct (String.prefix p ""); [|done]. intros [= <-]. by exists 0%nat.
  - destruct (String.prefix p (String c s)).
    + intros [= <-]. by exists 0%nat.
    + intros [i ->]%IH. by exists (S i).
Qed.

(** The search of the code finds what the words of the specification
    describe. *)
Lemma search_total (label body : string) :
  Re.search (Re.total_pattern label) body = Locate.total label body.
Proof.
  unfold Re.total_pattern, Locate.total. generalize ("Total " +:+ label). intros p.
  induction body as [|c s IH].
  - cbn [Re.search after_first]. rewrite match_lit, match_tail.
    destruct (String.prefix p ""); cbn; [|done].
    by destruct (first_amount _).
  - cbn [Re.search after_first]. rewrite match_lit, match_tail, IH. clear IH.
    destruct (String.prefix p (String c s)); cbn [mbind option_bind]; [|done].
    destruct (first_amount (Text.drop _ (String c s))) eqn:Hf; [done|].
    destruct (after_first p s) as [t|] eqn:Ha; [|done]. cbn.
    apply after_first_drop in Ha as [i ->].
    replace (Text.drop (i + String.length p) s)
      with (Text.drop (S i) (Text.drop (String.length p) (String c s))).
    + by apply first_amount_drop.
    + rewrite drop_drop. by replace (String.length p + S i)%nat
        with (S (i + String.length p)) by lia.
Qed.

(** *** The words of the specification against the shape of the text *)

Lemma after_first_found (p pre t : string) :
  (∀ i, (i < String.length pre)%nat →
        String.prefix p (Text.drop i (pre +:+ p +:+ t)) = false) →
  after_first p (pre +:+ p +:+ t) = Some t.
Proof.
  induction pre as [|c pre IH]; intros Hfirst.
  - rewrite append_nil. destruct p as [|c p].
    + by destruct t.
    + rewrite append_cons. cbn [after_first]. rewrite <- append_cons, prefix_app.
      by rewrite drop_app_length.
  - pose proof (Hfirst 0%nat ltac:(cbn; lia)) as H0.
    cbn [Text.drop] in H0. rewrite append_cons in *. cbn [after_first].
    rewrite H0. apply IH. intros i Hi. apply (Hfirst (S i)). cbn. lia.
Qed.

Lemma numeral_app (num rest : string) :
  is_numeral num = true → starts_amount rest = false →
  numeral (num +:+ rest) = num.
Proof.
  induction num as [|c num IH]; intros Hn Hr.
  - rewrite append_nil. destruct rest as [|c rest]; [done|].
    cbn in *. by rewrite Hr.
  - rewrite append_cons. cbn in *. apply andb_true_iff in Hn as [-> Hn].
    f_equal. by apply IH.
Qed.

Lemma first_amount_found (mid num rest : string) :
  (∀ m1 c m2, mid = m1 +:+ "$" +:+ String c m2 → Text.is_digit_or_dot c = false) →
  num ≠ "" → is_numeral num = true → starts_amount rest = false →
  first_amount (mid +:+ "$" +:+ num +:+ rest) = Some num.
Proof.
  intros Hmid Hne Hnum Hrest. induction mid as [|c mid IH].
  - rewrite append_nil, append_cons, append_nil. cbn [first_amount].
    rewrite Ascii.eqb_refl. destruct num as [|d num]; [done|].
    rewrite append_cons. cbn in Hnum. apply andb_true_iff in Hnum as [Hd Hnum].
    cbn [starts_amount andb]. rewrite Hd. cbn [numeral]. rewrite Hd.
    by rewrite numeral_app.
  - rewrite append_cons. cbn [first_amount].
    assert (Ascii.eqb "$" c && starts_amount (mid +:+ "$" +:+ num +:+ rest) = false) as ->.
    { destruct (Ascii.eqb_spec "$" c) as [<-|]; [|done]. cbn [andb].
      destruct mid as [|c' mid]; [done|].
      rewrite append_cons. cbn. by apply (Hmid "" c' mid). }
    apply IH. intros m1 c' m2 ->. by apply (Hmid (String c m1) c' m2).
Qed.

Lemma after_first_split (p s t : string) :
  after_first p s = Some t → ∃ pre, s = pre +:+ p +:+ t.
Proof.
  induction s as [|c s IH]; cbn [after_first].
  - destruct (String.prefix p "") eqn:Hp; [|done]. intros [= <-].
    exists "". by apply prefix_split in Hp.
  - destruct (String.prefix p (String c s)) eqn:Hp.
    + intros [= <-]. exists "". by apply prefix_split in Hp.
    + intros [pre ->]%IH. by exists (String c pre).
Qed.

Lemma first_amount_split (t g : string) :
  first_amount t = Some g →
  ∃ mid c rest, t = mid +:+ "$" +:+ String c rest ∧ Text.is_digit_or_dot c = true.
Proof.
  induction t as [|c t IH]; [done|]. cbn [first_amount].
  destruct (Ascii.eqb_spec "$" c) as [<-|]; cbn [andb].
  - destruct t as [|d t]; [done|]. cbn [starts_amount].
    destruct (Text.is_digit_or_dot d) eqn:Hd.
    + intros _. by exists "", d, t.
    + intros (mid & c' & rest & -> & Hc)%IH. by exists (String "$" mid), c', rest.
  - intros (mid & c' & rest & -> & Hc)%IH. by exists (String c mid), c', rest.
Qed.

Lemma first_amount_some (mid rest : string) (c : ascii) :
  Text.is_digit_or_dot c = true →
  is_Some (first_amount (mid +:+ "$" +:+ String c rest)).
Proof.
  intros Hc. induction mid as [|d mid IH].
  - rewrite append_nil, append_cons, append_nil. cbn. by rewrite Hc.
  - rewrite append_cons. cbn [first_amount]. by destruct (_ && _).
Qed.

Lemma after_first_some (p pre u : string) :
  ∃ x, after_first p (pre +:+ p +:+ u) = Some (x +:+ u).
Proof.
  induction pre as [|c pre IH].
  - rewrite append_nil. exists "". destruct p as [|c p].
    + by destruct u.
    + rewrite append_cons. cbn [after_first]. rewrite <- append_cons, prefix_app.
      by rewrite drop_app_length.
  - rewrite append_cons. cbn [after_first].
    destruct (String.prefix p (String c (pre +:+ p +:+ u))) eqn:Hp; [|exact IH].
    apply prefix_split in Hp.
    assert (∀ (a b : string) n, (n ≤ String.length a)%nat →
              Text.drop n (a +:+ b) = Text.drop n a +:+ b) as Hdrop.
    { intros a b n. revert a. induction n as [|n IHn]; intros a Hn; [done|].
      destruct a as [|c' a]; cbn in Hn; [lia|]. rewrite append_cons. cbn. apply IHn. lia. }
    exists (Text.drop (String.length p) (String c pre +:+ p)).
    rewrite <- append_cons. f_equal.
    assert (String c pre +:+ p +:+ u = (String c pre +:+ p) +:+ u) as ->.
    { clear. generalize (String c pre). intros a. induction a as [|d a IH]; [done|].
      rewrite !append_cons. by f_equal. }
    apply Hdrop.
    assert (∀ a b : string, String.length (a +:+ b) = (String.length a + String.length b)%nat) as ->.
    { intros a b. induction a as [|d a IHa]; [done|]. rewrite append_cons. cbn. by f_equal. }
    lia.
Qed.

(** There is a total to find exactly when the anchor occurs with, somewhere
    after it, a dollar sign that a digit or a dot follows. *)
Lemma total_none (label body : string) :
  Locate.total label body = None ↔
  ¬ ∃ pre mid c rest,
      body = pre +:+ ("Total " +:+ label) +:+ mid +:+ "$" +:+ String c rest
      ∧ Text.is_digit_or_dot c = true.
Proof.
  unfold Locate.total. generalize ("Total " +:+ label). intros p. split.
  - intros Hnone (pre & mid & c & rest & -> & Hc).
    destruct (after_first_some p pre (mid +:+ "$" +:+ String c rest)) as [x Hx].
    rewrite Hx in Hnone. cbn in Hnone.
    assert (x +:+ mid +:+ "$" +:+ String c rest = (x +:+ mid) +:+ "$" +:+ String c rest) as Heq.
    { clear. induction x as [|d x IH]; [done|]. rewrite !append_cons. by f_equal. }
    rewrite Heq in Hnone.
    destruct (first_amount_some (x +:+ mid) rest c Hc) as [g Hg]. congruence.
  - intros Hno. destruct (after_first p body) as [t|] eqn:Ha; [|done]. cbn.
    destruct (first_amount t) as [g|] eqn:Hf; [|done].
    exfalso. apply Hno.
    apply after_first_split in Ha as [pre ->].
    apply first_amount_split in Hf as (mid & c & rest & -> & Hc).
    by exists pre, mid, c, rest.
Qed.

Lemma float_not_ExtractionError (s : string) : Text.float s ≠ inl ExtractionError.
Proof.
  unfold Text.float. destruct (Text.read_digits 0 0 s) as [[i ni] rest].
  destruct rest as [|c rest]; [by destruct (ni =? 0)%nat|].
  destruct (Ascii.eqb c "."); [|done].
  destruct (Text.read_digits 0 0 rest) as [[f nf] rest'].
  destruct rest'; [|done]. by destruct (ni + nf =? 0)%nat.
Qed.

(** C4, as the code has it.  For a label without pattern characters:
    when the body is [pre], the anchor 'Total <label>' at its first
    occurrence, [mid], a dollar sign, the numeral [num] and [rest], where no
    dollar sign of [mid] is followed by a digit or a dot and [num] is all
    the digits and dots that follow the sign, the extraction is [float] of
    [num]; when the anchor occurs nowhere with such a dollar sign after it,
    the extraction raises [AttributeError]; it raises [ExtractionError] in
    no case. *)
Theorem extract_total_spec (label body : string) :
  Re.plain label = true →
  (∀ pre mid num rest,
     body = pre +:+ ("Total " +:+ label) +:+ mid +:+ "$" +:+ num +:+ rest →
     (∀ i, (i < String.length pre)%nat →
           String.prefix ("Total " +:+ label) (Text.drop i body) = false) →
     (∀ m1 c m2, mid = m1 +:+ "$" +:+ String c m2 → Text.is_digit_or_dot c = false) →
     num ≠ "" → is_numeral num = true → starts_amount rest = false →
     extract_total label body = Text.float num)
  ∧ ((¬ ∃ pre mid c rest,
        body = pre +:+ ("Total " +:+ label) +:+ mid +:+ "$" +:+ String c rest
        ∧ Text.is_digit_or_dot c = true) →
     extract_total label body = inl AttributeError)
  ∧ extract_total label body ≠ inl ExtractionError.
Proof.
  intros _. unfold extract_total. rewrite search_total. split_and!.
  - intros pre mid num rest -> Hfirst Hmid Hne Hnum Hrest.
    unfold Locate.total. rewrite after_first_found by done. cbn.
    by rewrite first_amount_found.
  - intros Hno. apply total_none in Hno. by rewrite Hno.
  - destruct (Locate.total label body); [apply float_not_ExtractionError|done].
Qed.

End ExtractFacts.

(** ** The value of a numeral *)

Module FloatFacts.
Import Locate.

Lemma digit_char (d : nat) :
  (d < 10)%nat →
  Text.is_digit (ascii_of_nat (48 + d)) = true
  ∧ (Z.of_nat (nat_of_ascii (ascii_of_nat (48 + d))) - 48 = Z.of_nat d)%Z.
Proof. intros Hd. do 10 (destruct d as [|d]; [done|]). lia. Qed.

Lemma digits_value_from (a : Z) (ds : list nat) :
  foldl (λ a d, 10 * a + Z.of_nat d)%Z a ds =
  (a * 10 ^ Z.of_nat (length ds) + digits_value ds)%Z.
Proof.
  unfold digits_value. revert a. induction ds as [|d ds IH]; intros a; cbn [foldl length].
  - cbn. lia.
  - rewrite IH, (IH (10 * 0 + Z.of_nat d)%Z).
    rewrite Nat2Z.inj_succ, Z.pow_succ_r by lia. lia.
Qed.

Lemma read_digits_digits (acc : Z) (n : nat) (ds : list nat) (rest : string) :
  Forall (λ d, (d < 10)%nat) ds →
  match rest with String c _ => Text.is_digit c = false | EmptyString => True end →
  Text.read_digits acc n (digits ds +:+ rest) =
  (foldl (λ a d, 10 * a + Z.of_nat d)%Z acc ds, (n + length ds)%nat, rest).
Proof.
  intros Hds Hrest. revert acc n. induction Hds as [|d ds Hd Hds IH]; intros acc n.
  - cbn [digits foldl length]. rewrite Nat.add_0_r.
    change ("" +:+ rest) with rest. destruct rest as [|c rest]; [done|].
    cbn. by rewrite Hrest.
  - cbn [digits foldl length].
    change (String ?c ?p +:+ rest) with (String c (p +:+ rest)).
    cbn [Text.read_digits]. destruct (digit_char d Hd) as [-> ->].
    rewrite IH. do 2 f_equal. lia.
Qed.

(** [float] on digits alone. *)
Lemma float_integer (int : list nat) :
  Forall (λ d, (d < 10)%nat) int → int ≠ [] →
  Text.float (digits int) = inr (Qc_of_Z (digits_value int)).
Proof.
  intros Hint Hne. unfold Text.float.
  pose proof (read_digits_digits 0 0 int "" Hint I) as Hr.
  assert (∀ s : string, s +:+ "" = s) as Hnil.
  { intros s. induction s as [|c s IH]; [done|].
    change (String c s +:+ "") with (String c (s +:+ "")). by rewrite IH. }
  rewrite Hnil in Hr. rewrite Hr. cbn [Nat.add].
  destruct int as [|d int]; [done|]. done.
Qed.

(** [float] on digits, a dot and digits: the decimal value. *)
Lemma float_decimal (int frac : list nat) :
  Forall (λ d, (d < 10)%nat) int → Forall (λ d, (d < 10)%nat) frac →
  int ≠ [] ∨ frac ≠ [] →
  Text.float (digits int +:+ "." +:+ digits frac) = inr (decimal_value int frac).
Proof.
  intros Hint Hfrac Hne. unfold Text.float.
  rewrite (read_digits_digits 0 0 int ("." +:+ digits frac) Hint) by done.
  change ("." +:+ digits frac) with (String "." (digits frac)).
  cbn [Ascii.eqb Bool.eqb]. cbn match.
  pose proof (read_digits_digits 0 0 frac "" Hfrac I) as Hr.
  assert (∀ s : string, s +:+ "" = s) as Hnil.
  { intros s. induction s as [|c s IH]; [done|].
    change (String c s +:+ "") with (String c (s +:+ "")). by rewrite IH. }
  rewrite Hnil in Hr. rewrite Hr. cbn [Nat.add].
  assert ((length int + length frac =? 0)%nat = false) as ->.
  { apply Nat.eqb_neq. destruct Hne as [Hn|Hn]; [destruct int|destruct frac]; cbn; done || lia. }
  unfold decimal_value, digits_value. rewrite foldl_app.
  rewrite (digits_value_from (foldl _ 0%Z int)). done.
Qed.

End FloatFacts.

(** ** The splitter *)

Lemma for_each_ok_inv {A S} (body : S → A → M S) (I : S → world → Prop)
    (l : list A) :
  (∀ s x w w' s', x ∈ l → I s w → body s x w = (w', inr s') → I s' w') →
  ∀ s w w' s', I s w → for_each body l s w = (w', inr s') → I s' w'.
Proof.
  induction l as [|x l IH]; intros Hbody s w w' s' Hs Hrun.
  - cbn in Hrun. by injection Hrun as <- <-.
  - cbn [for_each] in Hrun. apply bind_ok in Hrun as (w1 & s1 & H1 & H2).
    eapply IH; [|by eapply Hbody; [list_mem| |]|done].
    intros ????? Hin. apply Hbody. list_mem.
Qed.

Section Discount.
Variable slugify : string → string.
Variable self : AttBillSpliter.
Variable b : browser.

(** No block of the account holder's that is monthly charges has a line
    'National Account Discount ... $<amount>'. *)
Hypothesis no_discount :
  ∀ elems e label,
    wireless_elems b (user_name (account_holder self))
                     (user_number (account_holder self)) = Some elems →
    e ∈ elems → elem_label e = Some label →
    Text.startswith label "Monthly Charges" = true →
    Re.search Re.discount_pattern (elem_text e) = None.



End Discount.

(** ** Who shares the pooled fee (lines 355-408) *)

Section ActiveLines.
Variable slugify : string → string.

(** The local [offset] after a turn of the loop over the holder's blocks:
    the pooled fee less the discount when the block is the monthly charges,
    zero otherwise.  It is what the loop over the other lines subtracts. *)
Lemma holder_item_offset (self : AttBillSpliter) (cat : ChargeCategory)
    (c : BillingCycle) (l l' : locals) (e : elem) (label : string)
    (w w' : world) :
  holder_item slugify self cat c l e w = (w', inr l') →
  elem_label e = Some label →
  if Text.startswith label "Monthly Charges"
  then ∃ d, w_act_m_disc l' = Some d ∧ offset l' = Some (w_act_m - d)%Qc
  else offset l' = Some 0%Qc ∧ w_act_m_disc l' = w_act_m_disc l.
Proof.
  intros Hrun Hlabel. unfold holder_item in Hrun. rewrite Hlabel in Hrun.
  apply bind_ok in Hrun as (w1 & label' & Hl & Hrun). injection Hl as <- <-.
  apply bind_ok in Hrun as (w2 & [label2 l2] & Hmonthly & Hrun).
  apply bind_ok in Hrun as (w3 & x & _ & Hrun).
  apply bind_ok in Hrun as (w4 & o & _ & Hrun).
  apply bind_ok in Hrun as (w5 & [] & _ & Hrun). injection Hrun as <- <-.
  destruct (Text.startswith label "Monthly Charges").
  - apply bind_ok in Hmonthly as (w6 & l6 & _ & Hmonthly).
    apply bind_ok in Hmonthly as (w7 & d & Hd & Hmonthly).
    injection Hmonthly as <- <- <-. exists d. split; [|done]. cbn.
    destruct (w_act_m_disc l6); [|done]. by injection Hd as <- <-.
  - by injection Hmonthly as <- <- <-.
Qed.

Lemma user_item_amount (u : User) (cat : ChargeCategory) (c : BillingCycle)
    (l : locals) (t0 t : Qc) (e : elem) (w w' : world) :
  user_item slugify u cat c l t0 e w = (w', inr t) → item_amount l e = Some t.
Proof.
  unfold user_item, item_amount. intros (w1 & label & Hlabel & Hrun)%bind_ok.
  destruct (elem_label e) as [label'|]; [|done]. injection Hlabel as <- <-.
  apply bind_ok in Hrun as (w2 & x & Hx & Hrun). unfold lift in Hx.
  injection Hx as <- Hx. cbn. rewrite Hx.
  apply bind_ok in Hrun as (w3 & o & Ho & Hrun).
  destruct (offset l) as [o'|]; [|done]. injection Ho as <- <-.
  apply bind_ok in Hrun as (w4 & [] & _ & Hrun). by injection Hrun as <- <-.
Qed.

(** The local [charge_total] after the loop over the blocks of a line: the
    amount of the last block, or what it was when there is no block. *)
Lemma user_items_last (u : User) (cat : ChargeCategory) (c : BillingCycle)
    (l : locals) (elems : list elem) (t0 t : Qc) (w w' : world) :
  for_each (user_item slugify u cat c l) elems t0 w = (w', inr t) →
  match last elems with
  | Some e => item_amount l e = Some t
  | None => t = t0
  end.
Proof.
  revert t0 w. induction elems as [|e elems IH]; intros t0 w Hrun.
  - cbn in Hrun. by injection Hrun as <- <-.
  - cbn [for_each] in Hrun. apply bind_ok in Hrun as (w1 & t1 & H1 & Hrun).
    specialize (IH _ _ Hrun). destruct elems as [|e' elems].
    + cbn in IH. subst t. cbn. by eapply user_item_amount.
    + rewrite last_cons_cons.
      destruct (last (e' :: elems)) eqn:Hl; [exact IH|]. by apply last_None in Hl.
Qed.

(** The rule of the code, exactly: a line other than the holder's joins
    [users] when the amount of its last block is positive. *)
Lemma regular_user_last_block (self : AttBillSpliter) (b : browser)
    (cat : ChargeCategory) (c : BillingCycle) (l : locals)
    (users users' : gset nat) (name number : string) (w w' : world) :
  number ≠ user_number (account_holder self) →
  regular_user slugify self b cat c l users (name, number) w = (w', inr users') →
  ∃ elems u w1,
    wireless_elems b name number = Some elems
    ∧ User_get_or_create name number w = (w1, inr u)
    ∧ ∃ t, match last elems with
           | Some e => item_amount l e = Some t
           | None => t = 0%Qc
           end
           ∧ users' = if bool_decide (0 < t)%Qc then {[ user_id u ]} ∪ users else users.
Proof.
  intros Hnum. unfold regular_user. rewrite bool_decide_eq_false_2 by done.
  destruct (wireless_elems b name number) as [elems|]; [|done].
  intros (w1 & u & Hu & Hrun)%bind_ok.
  apply bind_ok in Hrun as (w2 & t & Hloop & Hrun).
  exists elems, u, w1. split_and!; [done|done|].
  exists t. split; [by eapply user_items_last|].
  case_bool_decide; by injection Hrun as <- <-.
Qed.

(** The set [users] starts as the holder alone and only grows. *)
Lemma holder_in_users (self : AttBillSpliter) (b : browser)
    (cat : ChargeCategory) (c : BillingCycle) (l : locals)
    (w w' : world) (users : gset nat) :
  regular_users slugify self b cat c l w = (w', inr users) →
  user_id (account_holder self) ∈ users.
Proof.
  unfold regular_users.
  apply (for_each_ok_inv _ (λ users _, user_id (account_holder self) ∈ users));
    [|set_solver].
  intros s [name number] w1 w2 s' _ Hs. unfold regular_user.
  case_bool_decide; [by intros [= <- <-]|].
  destruct (wireless_elems b name number); [|done].
  intros (w3 & u & _ & Hrun)%bind_ok.
  apply bind_ok in Hrun as (w4 & t & _ & Hrun).
  case_bool_decide; injection Hrun as <- <-; set_solver.
Qed.

(** C1, as the code has it.  The account holder is a member of [users],
    whose size divides the pooled fee, whatever the holder's charges.  A
    turn of the loop over the phone book, for a line other than the
    holder's, adds the line's user to [users] when the line has blocks and
    the amount of each is positive, and leaves [users] as it is when no
    block of the line has a positive amount. *)
Theorem active_lines (self : AttBillSpliter) (b : browser)
    (cat : ChargeCategory) (c : BillingCycle) (l : locals) :
  (∀ w w' users,
     regular_users slugify self b cat c l w = (w', inr users) →
     user_id (account_holder self) ∈ users)
  ∧ (∀ users users' name number w w',
       number ≠ user_number (account_holder self) →
       regular_user slugify self b cat c l users (name, number) w = (w', inr users') →
       ∃ elems u w1,
         wireless_elems b name number = Some elems
         ∧ User_get_or_create name number w = (w1, inr u)
         ∧ (elems ≠ [] →
            (∀ e a, e ∈ elems → item_amount l e = Some a → (0 < a)%Qc) →
            users' = {[ user_id u ]} ∪ users)
         ∧ ((∀ e a, e ∈ elems → item_amount l e = Some a → (a <= 0)%Qc) →
            users' = users)).
Proof.
  split.
  - intros w w' users. apply holder_in_users.
  - intros users users' name number w w' Hnum Hrun.
    destruct (regular_user_last_block _ _ _ _ _ _ _ _ _ _ _ Hnum Hrun)
      as (elems & u & w1 & Helems & Hu & t & Hlast & ->).
    exists elems, u, w1. split_and!; [done|done| |].
    + intros Hne Hpos. destruct (last elems) as [e|] eqn:He.
      * rewrite bool_decide_eq_true_2; [done|].
        apply (Hpos e t); [|done]. apply last_Some in He as [? ->]. list_mem.
      * by apply last_None in He.
    + intros Hnonpos. rewrite bool_decide_eq_false_2; [done|].
      apply Qcle_not_lt. destruct (last elems) as [e|] eqn:He.
      * apply (Hnonpos e t); [|done]. apply last_Some in He as [? ->]. list_mem.
      * by subst t.
Qed.

End ActiveLines.

(** ** The ledger operations *)

Section Ledger.

Lemma fresh_above (ids : list nat) (x : nat) : x ∈ ids → (x < fresh ids)%nat.
Proof. intros Hx. apply max_list_elem_of_le in Hx. unfold fresh. lia. Qed.

Lemma fresh_not_in (ids : list nat) : fresh ids ∉ ids.
Proof. intros Hx%fresh_above. lia. Qed.

Lemma keeps_run {A} (P : DB → Prop) (m : M A) (w w' : world) (a : A) :
  keeps P m → P (db w) → m w = (w', inr a) → P (db w').
Proof. intros Hm. apply Hm. Qed.

Lemma keeps_ret {A} (P : DB → Prop) (a : A) : keeps P (mret a).
Proof. intros w w' a' HP [= <- <-]. done. Qed.

Lemma keeps_bind {A B} (P : DB → Prop) (m : M A) (k : A → M B) :
  keeps P m → (∀ a, keeps P (k a)) → keeps P (m ≫= k).
Proof.
  intros Hm Hk w w' b HP (w1 & a & H1 & H2)%bind_ok.
  eapply Hk; [|done]. by eapply Hm.
Qed.

Lemma keeps_for_each {A S} (P : DB → Prop) (body : S → A → M S) (l : list A) (s : S) :
  (∀ s x, keeps P (body s x)) → keeps P (for_each body l s).
Proof.
  intros Hbody w w' s' HP Hrun.
  eapply (for_each_ok_inv body (λ _ w, P (db w))); [|exact HP|exact Hrun].
  intros ? ? ? ? ? _ ? ?. by eapply Hbody.
Qed.

Lemma keeps_lift {A} (P : DB → Prop) (r : exn + A) : keeps P (lift r).
Proof. intros w w' a HP [= <- _]. done. Qed.

Lemma keeps_raise {A} (P : DB → Prop) (e : exn) : keeps P (raise (A := A) e).
Proof. intros w w' a HP [=]. Qed.

Lemma keeps_read_local {A} (P : DB → Prop) (x : option A) : keeps P (read_local x).
Proof. destruct x; [apply keeps_ret|apply keeps_raise]. Qed.

Lemma keeps_find_element {A} (P : DB → Prop) (x : option A) : keeps P (find_element x).
Proof. destruct x; [apply keeps_ret|apply keeps_raise]. Qed.

Lemma keeps_logger (P : DB → Prop) (e : log_entry) : keeps P (logger e).
Proof. intros w w' a HP [= <- _]. done. Qed.

(** Operations that touch neither ChargeType nor Charge. *)
Lemma User_get_or_create_tables (name number : string) (w w' : world) (u : User) :
  User_get_or_create name number w = (w', inr u) →
  tbl_type (db w') = tbl_type (db w) ∧ tbl_charge (db w') = tbl_charge (db w).
Proof.
  unfold User_get_or_create. destruct (List.find _ _); by intros [= <- _].
Qed.

Lemma ChargeCategory_get_or_create_tables (cat text : string) (w w' : world)
    (c : ChargeCategory) :
  ChargeCategory_get_or_create cat text w = (w', inr c) →
  tbl_type (db w') = tbl_type (db w) ∧ tbl_charge (db w') = tbl_charge (db w).
Proof.
  unfold ChargeCategory_get_or_create. destruct (List.find _ _); by intros [= <- _].
Qed.

(** [get_or_create] of a charge type: the row has the fields asked for and
    is in the table, which is the old one, or the old one and the row under
    a key that was free; the charges are untouched. *)
Lemma ChargeType_get_or_create_ok (ty text : string) (cat : ChargeCategory)
    (w w' : world) (t : ChargeType) :
  ChargeType_get_or_create ty text cat w = (w', inr t) →
  type_ t = ty ∧ type_text t = text ∧ charge_category t = category_id cat
  ∧ t ∈ tbl_type (db w')
  ∧ tbl_charge (db w') = tbl_charge (db w)
  ∧ ((w' = w ∧ List.find (λ t, bool_decide (type_ t = ty ∧ type_text t = text
                                ∧ charge_category t = category_id cat))
                   (tbl_type (db w)) = Some t)
     ∨ (tbl_type (db w') = tbl_type (db w) ++ [t]
        ∧ type_id t = fresh (type_id <$> tbl_type (db w))
        ∧ List.find (λ t, bool_decide (type_ t = ty ∧ type_text t = text
                                ∧ charge_category t = category_id cat))
                   (tbl_type (db w)) = None)).
Proof.
  unfold ChargeType_get_or_create.
  destruct (List.find _ _) as [t'|] eqn:Hfind.
  - intros [= <- <-]. pose proof Hfind as Hf.
    apply find_some in Hfind as [Hin (? & ? & ?)%bool_decide_eq_true].
    split_and!; [done|done|done|by apply list_elem_of_In|done|by left].
  - intros [= <- <-]. cbn. split_and!; [done|done|done|list_mem|done|by right].
Qed.

Lemma Charge_save_ok (u : nat) (t : ChargeType) (c : BillingCycle) (a : Qc)
    (w w' : world) :
  Charge_save u t c a w = (w', inr ()) →
  ∃ r, tbl_charge (db w') = tbl_charge (db w) ++ [r]
       ∧ user r = u ∧ charge_type r = type_id t ∧ billing_cycle r = cycle_id c
       ∧ amount r = a
       ∧ tbl_type (db w') = tbl_type (db w)
       ∧ existsb (same_triple u (type_id t) (cycle_id c)) (tbl_charge (db w)) = false.
Proof.
  unfold Charge_save. destruct (existsb _ _) eqn:He; [done|].
  intros [= <-]. eexists. cbn. split_and!; done.
Qed.

Lemma try_save_ok (u : nat) (t : ChargeType) (c : BillingCycle) (a : Qc)
    (w w' : world) (saved : bool) :
  try_save u t c a w = (w', inr saved) →
  if saved then Charge_save u t c a w = (w', inr ())
  else db w' = db w
       ∧ existsb (same_triple u (type_id t) (cycle_id c)) (tbl_charge (db w)) = true.
Proof.
  unfold try_save. destruct (Charge_save u t c a w) as [w1 [e|[]]] eqn:Hs.
  - destruct e; try done. intros [= <- <-]. unfold Charge_save in Hs.
    destruct (existsb _ _); [|done]. by injection Hs as <-.
  - by intros [= <- <-].
Qed.

End Ledger.

(** ** The shares of the pooled fee (lines 410-446) *)

Section Shares.
Variable slugify : string → string.
Hypothesis slug_share :
  slugify "Account Monthly Charges Share" ≠ "wireless-acount-monthly-charges-share".

Lemma NoDup_fmap_inj {A B} (f : A → B) (l : list A) (x y : A) :
  NoDup (f <$> l) → x ∈ l → y ∈ l → f x = f y → x = y.
Proof.
  induction l as [|z l IH]; intros Hnd Hx Hy Hf; [by apply elem_of_nil in Hx|].
  cbn in Hnd. apply NoDup_cons in Hnd as [Hz Hnd].
  apply elem_of_cons in Hx as [->|Hx]; apply elem_of_cons in Hy as [->|Hy].
  - done.
  - exfalso. apply Hz. rewrite Hf. by apply list_elem_of_fmap_2.
  - exfalso. apply Hz. rewrite <- Hf. by apply list_elem_of_fmap_2.
  - by apply IH.
Qed.

(** *** The line items keep [item_typed] *)

Lemma keeps_same_tables {A} (c : BillingCycle) (m : M A) :
  (∀ w w' a, m w = (w', inr a) →
     tbl_type (db w') = tbl_type (db w) ∧ tbl_charge (db w') = tbl_charge (db w)) →
  keeps (item_typed slugify c) m.
Proof.
  intros Hm w w' a HJ Hrun. destruct (Hm _ _ _ Hrun) as [Ht Hc].
  unfold item_typed. by rewrite Ht, Hc.
Qed.

Lemma save_to_db_typed (u : nat) (cat : ChargeCategory) (text : string)
    (c : BillingCycle) (a : Qc) :
  keeps (item_typed slugify c) (save_to_db slugify u cat text c a).
Proof.
  intros w w' [] [Hnd HJ] Hrun. unfold save_to_db in Hrun.
  apply bind_ok in Hrun as (w1 & t & Ht & Hrun).
  apply bind_ok in Hrun as (w2 & saved & Hs & Hrun). injection Hrun as <-.
  apply ChargeType_get_or_create_ok in Ht
    as (Hty & Htext & _ & Hin & Hch & Htbl).
  assert (NoDup (type_id <$> tbl_type (db w1))
          ∧ ∀ x, x ∈ tbl_type (db w) → x ∈ tbl_type (db w1)) as [Hnd1 Hmono].
  { destruct Htbl as [[-> _]|(Heq & Hid & _)]; [done|]. rewrite Heq. split.
    - rewrite fmap_app. apply NoDup_app. split_and!; [done| |apply NoDup_singleton].
      intros x Hx [=]%list_elem_of_singleton. subst x. rewrite Hid in Hx.
      by apply fresh_not_in in Hx.
    - intros x Hx. list_mem. }
  apply try_save_ok in Hs. destruct saved.
  - apply Charge_save_ok in Hs as (r & Hrows & _ & Hrt & _ & _ & Htypes & _).
    split; [by rewrite Htypes|]. rewrite Hrows, Htypes. intros r' Hr' Hc.
    apply elem_of_app in Hr' as [Hr'|Hr'%list_elem_of_singleton].
    + rewrite Hch in Hr'. destruct (HJ r' Hr' Hc) as (t' & Ht' & Hid & Hslug).
      exists t'. split_and!; [by apply Hmono|done|done].
    + subst r'. exists t. split_and!; [done|done|]. by rewrite Hty, Htext.
  - destruct Hs as [-> _]. split; [done|]. rewrite Hch. intros r' Hr' Hc.
    destruct (HJ r' Hr' Hc) as (t' & Ht' & Hid & Hslug).
    exists t'. split_and!; [by apply Hmono|done|done].
Qed.

Lemma keeps_User_get_or_create (c : BillingCycle) (name number : string) :
  keeps (item_typed slugify c) (User_get_or_create name number).
Proof. apply keeps_same_tables. intros ???. apply User_get_or_create_tables. Qed.

Lemma keeps_ChargeCategory_get_or_create (c : BillingCycle) (cat text : string) :
  keeps (item_typed slugify c) (ChargeCategory_get_or_create cat text).
Proof. apply keeps_same_tables. intros ???. apply ChargeCategory_get_or_create_tables. Qed.

Ltac keeps_step :=
  first
    [ apply save_to_db_typed
    | apply keeps_bind; [|intros ?]
    | apply keeps_ret
    | apply keeps_lift
    | apply keeps_raise
    | apply keeps_read_local
    | apply keeps_find_element
    | apply keeps_logger
    | apply keeps_User_get_or_create
    | apply keeps_ChargeCategory_get_or_create
    | apply keeps_for_each; intros ??
    | match goal with |- keeps _ (match ?x with _ => _ end) => destruct x end
    | match goal with |- keeps _ (if ?x then _ else _) => destruct x end ].

Lemma uverse_typed (self : AttBillSpliter) (elems : option (list elem))
    (cat text skipped : string) (c : BillingCycle) :
  keeps (item_typed slugify c) (uverse slugify self elems cat text skipped c).
Proof. unfold uverse, uverse_item. repeat keeps_step. Qed.

Lemma wireless_holder_typed (self : AttBillSpliter) (b : browser)
    (c : BillingCycle) (l : locals) :
  keeps (item_typed slugify c) (wireless_holder slugify self b c l).
Proof. unfold wireless_holder, holder_item. repeat keeps_step. Qed.

Lemma regular_users_typed (self : AttBillSpliter) (b : browser)
    (cat : ChargeCategory) (c : BillingCycle) (l : locals) :
  keeps (item_typed slugify c) (regular_users slugify self b cat c l).
Proof. unfold regular_users, regular_user, user_item. repeat keeps_step. Qed.

(** *** The loop over [users] *)

Lemma find_snoc {A} (f : A → bool) (l : list A) (x : A) :
  List.find f l = None → f x = true → List.find f (l ++ [x]) = Some x.
Proof.
  induction l as [|y l IH]; cbn; intros Hl Hx; [by rewrite Hx|].
  destruct (f y); [done|]. by apply IH.
Qed.

Lemma filter_none {A} (P : A → Prop) `{∀ x, Decision (P x)} (l : list A) :
  (∀ x, x ∈ l → ¬ P x) → filter P l = [].
Proof.
  induction l as [|y l IH]; intros Hl; [done|].
  rewrite filter_cons_False by (apply Hl; list_mem). apply IH.
  intros x Hx. apply Hl. list_mem.
Qed.

Lemma shares_inv_init (cat : ChargeCategory) (c : BillingCycle) (share : Qc)
    (d : DB) :
  item_typed slugify c d → shares_inv cat c share [] d.
Proof.
  intros [Hnd HJ]. split; [done|].
  destruct (share_type cat d) as [t|] eqn:Hfind.
  - unfold charges_of_type. rewrite filter_none; [done|].
    intros r Hr [Hty Hc]. destruct (HJ r Hr Hc) as (t' & Ht' & Hid & Hslug).
    apply find_some in Hfind as [Hin (Hcode & Htext & _)%bool_decide_eq_true].
    assert (t' = t) as ->.
    { apply (NoDup_fmap_inj type_id (tbl_type d)); [done|done| |congruence].
      by apply list_elem_of_In. }
    apply slug_share. by rewrite <- Htext, <- Hslug.
  - split; [done|]. intros r Hr Hc.
    destruct (HJ r Hr Hc) as (t' & Ht' & <- & _). by apply list_elem_of_fmap_2.
Qed.

Lemma share_item_step (cat : ChargeCategory) (c : BillingCycle) (share : Qc)
    (done : list nat) (u : nat) (tot tot' : Qc) (w w' : world) :
  u ∉ done →
  shares_inv cat c share done (db w) →
  share_item cat c share tot u w = (w', inr tot') →
  shares_inv cat c share (done ++ [u]) (db w').
Proof.
  intros Hu [Hnd Hinv] Hrun. unfold share_item in Hrun.
  apply bind_ok in Hrun as (w1 & t & Ht & Hrun).
  apply bind_ok in Hrun as (w2 & saved & Hs & Hrun).
  apply ChargeType_get_or_create_ok in Ht
    as (Hcode & Htext & Hcat & Hin & Hch & Htbl).
  (* after get_or_create the share type is [t], with the charges of [done] *)
  assert (NoDup (type_id <$> tbl_type (db w1))
          ∧ share_type cat (db w1) = Some t
          ∧ charges_of_type t c (db w1) ≡ₚ (λ u, (u, share)) <$> done)
    as (Hnd1 & Hty1 & Hrows1).
  { destruct Htbl as [[-> Hfind]|(Heq & Hid & Hfind)].
    - fold (share_type cat (db w)) in Hfind. rewrite Hfind in Hinv. done.
    - fold (share_type cat (db w)) in Hfind. rewrite Hfind in Hinv.
      destruct Hinv as [-> Hold]. split_and!.
      + rewrite Heq, fmap_app. apply NoDup_app. split_and!; [done| |apply NoDup_singleton].
        intros x Hx [=]%list_elem_of_singleton. subst x. rewrite Hid in Hx.
        by apply fresh_not_in in Hx.
      + unfold share_type. rewrite Heq. apply find_snoc; [done|].
        by apply bool_decide_eq_true.
      + unfold charges_of_type. rewrite Hch, filter_none; [done|].
        intros r Hr [Hrt Hc]. specialize (Hold r Hr Hc).
        rewrite Hrt, Hid in Hold. by apply fresh_not_in in Hold. }
  apply try_save_ok in Hs. destruct saved.
  - apply Charge_save_ok in Hs as (r & Hrows & Hru & Hrt & Hrc & Hra & Htypes & _).
    apply bind_ok in Hrun as (w3 & total & Htot & Hrun).
    injection Hrun as <- _. unfold user_total in Htot. injection Htot as <- _.
    split; [by rewrite Htypes|].
    assert (share_type cat (db w2) = Some t) as ->.
    { unfold share_type in *. by rewrite Htypes. }
    unfold charges_of_type in *. rewrite Hrows, filter_app, fmap_app, fmap_app.
    rewrite Hrows1. apply Permutation_app; [done|].
    rewrite filter_cons_True by done. cbn. by rewrite Hru, Hra.
  - exfalso. destruct Hs as [_ Hdup]. apply existsb_exists in Hdup as (r & Hr & Htriple).
    apply bool_decide_eq_true in Htriple as (Hru & Hrt & Hrc).
    apply Hu. apply list_elem_of_In in Hr.
    assert ((user r, amount r) ∈ charges_of_type t c (db w1)) as Hmem.
    { unfold charges_of_type. apply (list_elem_of_fmap_2 (λ r, (user r, amount r))).
      by apply list_elem_of_filter. }
    rewrite Hrows1 in Hmem. apply list_elem_of_fmap in Hmem as (u' & [= Hu' _] & Hdone).
    by rewrite <- Hru, Hu'.
Qed.

Lemma share_loop (cat : ChargeCategory) (c : BillingCycle) (share : Qc)
    (us : list nat) :
  ∀ done tot tot' w w',
    NoDup (done ++ us) →
    shares_inv cat c share done (db w) →
    for_each (share_item cat c share) us tot w = (w', inr tot') →
    shares_inv cat c share (done ++ us) (db w').
Proof.
  induction us as [|u us IH]; intros done tot tot' w w' Hnd Hinv Hrun.
  - cbn in Hrun. injection Hrun as <- _. by rewrite app_nil_r.
  - cbn [for_each] in Hrun. apply bind_ok in Hrun as (w1 & tot1 & H1 & Hrun).
    replace (done ++ u :: us) with ((done ++ [u]) ++ us) in * by by rewrite <- app_assoc.
    eapply IH; [done| |done].
    eapply share_item_step; [|done|done].
    apply NoDup_app in Hnd as (Hnd & _ & _). apply NoDup_app in Hnd as (_ & Hdisj & _).
    intros Hin. apply (Hdisj u Hin). list_mem.
Qed.

(** The loop of lines 410-446 on a ledger that the loops over line items
    have left. *)
Lemma shares_written (cat : ChargeCategory) (c : BillingCycle) (l : locals)
    (users : gset nat) (w w' : world) (total : Qc) :
  item_typed slugify c (db w) →
  shares cat c l users w = (w', inr total) →
  ∃ d, w_act_m_disc l = Some d
       ∧ size users ≠ 0%nat
       ∧ share_charges cat c (db w') ≡ₚ
           (λ u, (u, (w_act_m - d) / Qc_of_Z (Z.of_nat (size users)))%Qc)
             <$> elements users.
Proof.
  intros HJ Hrun. unfold shares in Hrun.
  apply bind_ok in Hrun as (w1 & d & Hd & Hrun).
  destruct (w_act_m_disc l) as [d'|]; [|done]. injection Hd as <- ->.
  case_bool_decide as Hsize; [done|].
  exists d. split_and!; [done|done|].
  pose proof (share_loop cat c _ (elements users) [] _ _ _ _
                (NoDup_elements users) (shares_inv_init cat c _ _ HJ) Hrun) as [_ Hinv].
  cbn [app] in Hinv. unfold share_charges.
  destruct (share_type cat (db w')); [done|].
  destruct Hinv as [Hnil _]. unfold size, set_size in Hsize. cbn in Hsize.
  by rewrite Hnil in Hsize.
Qed.

End Shares.

(** ** The split of a new cycle *)

Section Split.
Variable slugify : string → string.
Hypothesis slug_share :
  slugify "Account Monthly Charges Share" ≠ "wireless-acount-monthly-charges-share".

Lemma new_cycle_typed (name : string) (w w1 : world) (c : BillingCycle) :
  ledger_ok (db w) →
  BillingCycle_create name w = (w1, inr c) →
  item_typed slugify c (db w1).
Proof.
  intros [Hnd Hcycles]. unfold BillingCycle_create. intros [= <- <-].
  split; [done|]. cbn. intros r Hr Hc. exfalso.
  destruct (Hcycles r Hr) as (c' & Hc' & Hid). rewrite Hc in Hid.
  apply (fresh_not_in (cycle_id <$> tbl_cycle (db w))).
  rewrite <- Hid. by apply list_elem_of_fmap_2.
Qed.

Lemma Qc_of_Z_succ (n : nat) :
  Qc_of_Z (Z.of_nat (S n)) = (1 + Qc_of_Z (Z.of_nat n))%Qc.
Proof.
  apply Qc_is_canon. unfold Qc_of_Z. cbn [this].
  rewrite Nat2Z.inj_succ. unfold Qcplus, Q2Qc. cbn [this].
  rewrite !Qred_correct. unfold Qeq, inject_Z. cbn. lia.
Qed.

Lemma Qc_of_nat_nonzero (n : nat) : n ≠ 0%nat → Qc_of_Z (Z.of_nat n) ≠ 0%Qc.
Proof.
  intros Hn Heq. apply (f_equal this) in Heq. unfold Qc_of_Z, inject_Z in Heq.
  cbn in Heq. injection Heq as Heq. lia.
Qed.

Lemma sum_Permutation (l l' : list Qc) :
  l ≡ₚ l' → foldr Qcplus 0%Qc l = foldr Qcplus 0%Qc l'.
Proof.
  induction 1 as [|x l l' _ IH|x y l|l l' l'' _ IH1 _ IH2]; cbn.
  - done.
  - by rewrite IH.
  - ring.
  - by rewrite IH1.
Qed.

Lemma sum_constant {A} (f : A → nat) (share : Qc) (l : list A) :
  foldr Qcplus 0%Qc (((λ u, (f u, share)) <$> l).*2) =
  (Qc_of_Z (Z.of_nat (length l)) * share)%Qc.
Proof.
  induction l as [|x l IH].
  - cbn [fmap list_fmap foldr length].
    replace (Qc_of_Z (Z.of_nat 0)) with 0%Qc by by apply Qc_is_canon. ring.
  - rewrite !fmap_cons. cbn [foldr snd length]. rewrite IH, Qc_of_Z_succ. ring.
Qed.

(** C5. When the loop of lines 414-446 has ended, [d] being the discount
    extracted and [users] the set of active lines, of size N: the charges of
    type 'Account Monthly Charges Share' in the cycle are one for each
    member of [users], the account holder among them, each of amount
    (130 - d) / N, and their amounts add up to 130 - d. *)
Theorem share_per_active_line (self : AttBillSpliter) (b : browser)
    (name : string) (w w' : world) (f : frame) :
  ledger_ok (db w) →
  split_new_cycle slugify self b name w = (w', inr f) →
  ∃ d,
    w_act_m_disc (locals_ f) = Some d
    ∧ user_id (account_holder self) ∈ users_ f
    ∧ let share := ((w_act_m - d) / Qc_of_Z (Z.of_nat (size (users_ f))))%Qc in
      let written := share_charges (wireless_charge_category f) (billing_cycle_ f) (db w') in
      written ≡ₚ (λ u, (u, share)) <$> elements (users_ f)
      ∧ foldr Qcplus 0%Qc written.*2 = (w_act_m - d)%Qc.
Proof.
  intros Hok Hrun. unfold split_new_cycle in Hrun.
  apply bind_ok in Hrun as (w1 & c & Hc & Hrun).
  apply bind_ok in Hrun as (w2 & [] & Hutv & Hrun).
  apply bind_ok in Hrun as (w3 & [] & Huvi & Hrun).
  apply bind_ok in Hrun as (w4 & [cat l] & Hholder & Hrun).
  apply bind_ok in Hrun as (w5 & users & Husers & Hrun).
  apply bind_ok in Hrun as (w6 & total & Hshares & Hrun).
  injection Hrun as <- <-. cbn [locals_ users_ wireless_charge_category billing_cycle_].
  pose proof (new_cycle_typed _ _ _ _ Hok Hc) as HJ.
  apply (keeps_run _ _ _ _ _ (uverse_typed slugify _ _ _ _ _ _) HJ) in Hutv.
  apply (keeps_run _ _ _ _ _ (uverse_typed slugify _ _ _ _ _ _) Hutv) in Huvi.
  pose proof (keeps_run _ _ _ _ _ (wireless_holder_typed slugify _ _ _ _) Huvi Hholder)
    as HJ4.
  pose proof (keeps_run _ _ _ _ _ (regular_users_typed slugify _ _ _ _ _) HJ4 Husers)
    as HJ5.
  destruct (shares_written slugify slug_share _ _ _ _ _ _ _ HJ5 Hshares)
    as (d & Hd & Hsize & Hperm).
  exists d. split; [done|]. split; [by eapply holder_in_users|].
  cbn zeta. split; [done|].
  rewrite (sum_Permutation _ _ (fmap_Permutation snd _ _ Hperm)).
  rewrite sum_constant. change (length (elements users)) with (size users).
  field. by apply Qc_of_nat_nonzero.
Qed.

End Split.

(** ** The total that is compared with the bill's *)

Section Totals.
Variable slugify : string → string.
Hypothesis slug_share :
  slugify "Account Monthly Charges Share" ≠ "wireless-acount-monthly-charges-share".

Lemma flat_map_none {A B} (f : A → list B) (l : list A) :
  (∀ x, x ∈ l → f x = []) → flat_map f l = [].
Proof.
  induction l as [|x l IH]; intros Hf; [done|]. cbn.
  rewrite (Hf x) by list_mem. apply IH. intros y Hy. apply Hf. list_mem.
Qed.

Lemma foldr_Qcplus_app (l1 l2 : list Qc) :
  foldr Qcplus 0%Qc (l1 ++ l2) = (foldr Qcplus 0 l1 + foldr Qcplus 0 l2)%Qc.
Proof. induction l1 as [|x l1 IH]; cbn; [ring|]. rewrite IH. ring. Qed.

(** One turn of the loop over [users]: the charge of the share is written,
    the total of the user is taken on the ledger the turn leaves, and the
    totals of the users walked before are what they were. *)
Lemma share_item_total (cat : ChargeCategory) (c : BillingCycle) (share : Qc)
    (done : list nat) (u : nat) (tot tot' : Qc) (w w' : world) :
  u ∉ done →
  shares_inv cat c share done (db w) →
  share_item cat c share tot u w = (w', inr tot') →
  tot' = (tot + stored_total u c cat (db w'))%Qc
  ∧ ∀ v, v ∈ done → stored_total v c cat (db w') = stored_total v c cat (db w).
Proof.
  intros Hu [Hnd Hinv] Hrun. unfold share_item in Hrun.
  apply bind_ok in Hrun as (w1 & t & Ht & Hrun).
  apply bind_ok in Hrun as (w2 & saved & Hs & Hrun).
  apply ChargeType_get_or_create_ok in Ht
    as (Hcode & Htext & Hcat & Hin & Hch & Htbl).
  assert (charges_of_type t c (db w1) ≡ₚ (λ u, (u, share)) <$> done
          ∧ (done ≠ [] → w1 = w)) as [Hrows1 Hsame].
  { destruct Htbl as [[-> Hfind]|(Heq & Hid & Hfind)].
    - fold (share_type cat (db w)) in Hfind. rewrite Hfind in Hinv. done.
    - fold (share_type cat (db w)) in Hfind. rewrite Hfind in Hinv.
      destruct Hinv as [-> Hold]. split; [|done].
      unfold charges_of_type. rewrite Hch, filter_none; [done|].
      intros r Hr [Hrt Hc]. specialize (Hold r Hr Hc).
      rewrite Hrt, Hid in Hold. by apply fresh_not_in in Hold. }
  apply try_save_ok in Hs. destruct saved.
  - apply Charge_save_ok in Hs as (r & Hrows & Hru & Hrt & Hrc & Hra & Htypes & _).
    apply bind_ok in Hrun as (w3 & total & Htot & Hrun).
    injection Hrun as <- <-. unfold user_total in Htot. injection Htot as <- <-.
    split; [done|]. intros v Hv.
    assert (w1 = w) as -> by (apply Hsame; intros ->; by apply elem_of_nil in Hv).
    unfold stored_total. rewrite Hrows, Htypes, flat_map_app, foldr_Qcplus_app.
    cbn [flat_map]. rewrite app_nil_r, (flat_map_none _ (tbl_type (db w))); [cbn; ring|].
    intros ty _. rewrite bool_decide_eq_false_2; [done|].
    intros (_ & Hv' & _). apply Hu. by rewrite <- Hru, Hv'.
  - exfalso. destruct Hs as [_ Hdup]. apply existsb_exists in Hdup as (r & Hr & Htriple).
    apply bool_decide_eq_true in Htriple as (Hru & Hrt & Hrc).
    apply Hu. apply list_elem_of_In in Hr.
    assert ((user r, amount r) ∈ charges_of_type t c (db w1)) as Hmem.
    { unfold charges_of_type. apply (list_elem_of_fmap_2 (λ r, (user r, amount r))).
      by apply list_elem_of_filter. }
    rewrite Hrows1 in Hmem. apply list_elem_of_fmap in Hmem as (u' & [= Hu' _] & Hdone).
    by rewrite <- Hru, Hu'.
Qed.

Lemma share_loop_total (cat : ChargeCategory) (c : BillingCycle) (share : Qc)
    (us : list nat) :
  ∀ done tot tot' w w',
    NoDup (done ++ us) →
    shares_inv cat c share done (db w) →
    for_each (share_item cat c share) us tot w = (w', inr tot') →
    tot = foldr Qcplus 0%Qc ((λ u, stored_total u c cat (db w)) <$> done) →
    tot' = foldr Qcplus 0%Qc ((λ u, stored_total u c cat (db w')) <$> (done ++ us)).
Proof.
  induction us as [|u us IH]; intros done tot tot' w w' Hnd Hinv Hrun Htot.
  - cbn in Hrun. injection Hrun as <- <-. by rewrite app_nil_r.
  - cbn [for_each] in Hrun. apply bind_ok in Hrun as (w1 & tot1 & H1 & Hrun).
    replace (done ++ u :: us) with ((done ++ [u]) ++ us) in * by by rewrite <- app_assoc.
    assert (u ∉ done) as Hu.
    { apply NoDup_app in Hnd as (Hnd & _ & _). apply NoDup_app in Hnd as (_ & Hdisj & _).
      intros Hin. apply (Hdisj u Hin). list_mem. }
    destruct (share_item_total cat c share done u tot tot1 w w1 Hu Hinv H1)
      as [Htot1 Hkept].
    eapply IH; [done| |done|].
    + by eapply share_item_step.
    + assert ((λ u, stored_total u c cat (db w1)) <$> done
              = (λ u, stored_total u c cat (db w)) <$> done) as Hdone.
      { apply list_fmap_ext. intros i v Hv. apply Hkept.
        by eapply list_elem_of_lookup_2. }
      rewrite Htot1, Htot, fmap_app, foldr_Qcplus_app, Hdone. cbn. ring.
Qed.

(** X13. When the charges of a new cycle have been written, the total that
    the method compares with the one on the bill is the sum, over the
    active lines, of the wireless charges that the ledger then holds for
    each of them in the cycle, the shares of the pooled fee among them. *)
Theorem compared_total_is_stored_total (self : AttBillSpliter) (b : browser)
    (name : string) (w w' : world) (f : frame) :
  ledger_ok (db w) →
  split_new_cycle slugify self b name w = (w', inr f) →
  wireless_total_ f =
    foldr Qcplus 0%Qc
      ((λ u, stored_total u (billing_cycle_ f) (wireless_charge_category f) (db w'))
         <$> elements (users_ f)).
Proof.
  intros Hok Hrun. unfold split_new_cycle in Hrun.
  apply bind_ok in Hrun as (w1 & c & Hc & Hrun).
  apply bind_ok in Hrun as (w2 & [] & Hutv & Hrun).
  apply bind_ok in Hrun as (w3 & [] & Huvi & Hrun).
  apply bind_ok in Hrun as (w4 & [cat l] & Hholder & Hrun).
  apply bind_ok in Hrun as (w5 & users & Husers & Hrun).
  apply bind_ok in Hrun as (w6 & total & Hshares & Hrun).
  injection Hrun as <- <-.
  cbn [wireless_total_ users_ wireless_charge_category billing_cycle_].
  pose proof (new_cycle_typed slugify _ _ _ _ Hok Hc) as HJ.
  apply (keeps_run _ _ _ _ _ (uverse_typed slugify _ _ _ _ _ _) HJ) in Hutv.
  apply (keeps_run _ _ _ _ _ (uverse_typed slugify _ _ _ _ _ _) Hutv) in Huvi.
  pose proof (keeps_run _ _ _ _ _ (wireless_holder_typed slugify _ _ _ _) Huvi Hholder)
    as HJ4.
  pose proof (keeps_run _ _ _ _ _ (regular_users_typed slugify _ _ _ _ _) HJ4 Husers)
    as HJ5.
  unfold shares in Hshares.
  apply bind_ok in Hshares as (w7 & d & Hd & Hshares).
  destruct (w_act_m_disc l) as [d'|]; [|done]. injection Hd as <- ->.
  case_bool_decide as Hsize; [done|].
  by apply (share_loop_total cat c _ (elements users) [] _ _ _ _
              (NoDup_elements users) (shares_inv_init slugify slug_share cat c _ _ HJ5)
              Hshares).
Qed.

End Totals.

(** ** The ledger stays in order *)

Section LedgerInvariant.
Variable slugify : string → string.

Lemma always_ret {A} (P : DB → Prop) (a : A) : always P (mret a).
Proof. by intros w HP. Qed.

Lemma always_bind {A B} (P : DB → Prop) (m : M A) (k : A → M B) :
  always P m → (∀ a, always P (k a)) → always P (m ≫= k).
Proof.
  intros Hm Hk w HP. rewrite bind_run. specialize (Hm w HP).
  destruct (m w) as [w1 [e|a]]; [done|]. by apply Hk.
Qed.

Lemma always_for_each {A S} (P : DB → Prop) (body : S → A → M S) (l : list A) (s : S) :
  (∀ s x, always P (body s x)) → always P (for_each body l s).
Proof.
  intros Hbody. revert s. induction l as [|x l IH]; intros s; cbn [for_each].
  - apply always_ret.
  - apply always_bind; [apply Hbody|apply IH].
Qed.

Lemma always_same_db {A} (P : DB → Prop) (m : M A) :
  (∀ w, db (m w).1 = db w) → always P m.
Proof. intros Hm w HP. by rewrite Hm. Qed.

Lemma always_lift {A} (P : DB → Prop) (r : exn + A) : always P (lift r).
Proof. by apply always_same_db. Qed.

Lemma always_raise {A} (P : DB → Prop) (e : exn) : always P (raise (A := A) e).
Proof. by apply always_same_db. Qed.

Lemma always_read_local {A} (P : DB → Prop) (x : option A) : always P (read_local x).
Proof. apply always_same_db. by destruct x. Qed.

Lemma always_find_element {A} (P : DB → Prop) (x : option A) : always P (find_element x).
Proof. apply always_same_db. by destruct x. Qed.

Lemma always_logger (P : DB → Prop) (e : log_entry) : always P (logger e).
Proof. by apply always_same_db. Qed.

Lemma always_User_get_or_create (c : BillingCycle) (name number : string) :
  always (ledger_with c) (User_get_or_create name number).
Proof.
  intros w H. unfold User_get_or_create. by destruct (List.find _ _).
Qed.

Lemma always_ChargeCategory_get_or_create (c : BillingCycle) (cat text : string) :
  always (ledger_with c) (ChargeCategory_get_or_create cat text).
Proof.
  intros w H. unfold ChargeCategory_get_or_create. by destruct (List.find _ _).
Qed.

Lemma always_ChargeType_get_or_create (c : BillingCycle) (ty text : string)
    (cat : ChargeCategory) :
  always (ledger_with c) (ChargeType_get_or_create ty text cat).
Proof.
  intros w [[Hnd Hcycles] Hc]. unfold ChargeType_get_or_create.
  destruct (List.find _ _); [done|]. unfold ledger_with, ledger_ok. cbn.
  split_and!; [|done|done].
  rewrite fmap_app. apply NoDup_app. split_and!; [done| |apply NoDup_singleton].
  intros x Hx [=]%list_elem_of_singleton. subst x. by apply fresh_not_in in Hx.
Qed.

Lemma always_try_save (c : BillingCycle) (u : nat) (t : ChargeType) (a : Qc) :
  always (ledger_with c) (try_save u t c a).
Proof.
  intros w [[Hnd Hcycles] Hc]. unfold try_save, Charge_save.
  destruct (existsb _ _); [done|]. unfold ledger_with, ledger_ok. cbn.
  split_and!; [done| |done].
  intros r [Hr|Hr%list_elem_of_singleton]%elem_of_app; [by apply Hcycles|].
  subst r. by exists c.
Qed.

Ltac always_step :=
  first
    [ apply always_try_save
    | apply always_ChargeType_get_or_create
    | apply always_User_get_or_create
    | apply always_ChargeCategory_get_or_create
    | apply always_bind; [|intros ?]
    | apply always_ret
    | apply always_lift
    | apply always_raise
    | apply always_read_local
    | apply always_find_element
    | apply always_logger
    | apply always_for_each; intros ??
    | apply always_same_db; reflexivity
    | match goal with |- always _ (match ?x with _ => _ end) => destruct x end
    | match goal with |- always _ (if ?x then _ else _) => destruct x end ].

(** From the creation of the cycle's row on, whatever the page holds and
    wherever the method stops. *)
Lemma split_steps_in_order (self : AttBillSpliter) (b : browser) (c : BillingCycle) :
  always (ledger_with c)
    (uverse slugify self (utv_elems b) "utv" "U-verse TV"
       "No U-verse TV Charge Elements Found, skipped." c;;
     uverse slugify self (uvi_elems b) "uvi" "U-verse Internet"
       "No U-verse Internet Charge Elements Found, skipped." c;;
     '(cat, l) ← wireless_holder slugify self b c
                   {| offset := None; w_act_m_disc := None |};
     users ← regular_users slugify self b cat c l;
     wireless_total ← shares cat c l users;
     mret {| billing_cycle_ := c; wireless_charge_category := cat; locals_ := l;
             users_ := users; wireless_total_ := wireless_total |}).
Proof.
  unfold uverse, uverse_item, wireless_holder, holder_item, regular_users,
    regular_user, user_item, shares, share_item, save_to_db, user_total.
  repeat always_step.
Qed.

Lemma split_new_cycle_in_order (self : AttBillSpliter) (b : browser)
    (name : string) :
  always ledger_ok (split_new_cycle slugify self b name).
Proof.
  intros w [Hnd Hcycles]. unfold split_new_cycle. rewrite bind_run.
  destruct (BillingCycle_create name w) as [w1 r] eqn:Hc.
  unfold BillingCycle_create in Hc. injection Hc as <- <-.
  apply split_steps_in_order. unfold ledger_with, ledger_ok. cbn.
  split_and!; [done| |list_mem].
  intros r Hr. destruct (Hcycles r Hr) as (c' & Hc' & Hid).
  exists c'. split; [list_mem|done].
Qed.

(** A ledger in order is in order after [split_previous_bill], whether the
    method returns or raises; the empty ledger is in order. *)
Lemma split_keeps_ledger_ok (self : AttBillSpliter) (b : browser) :
  always ledger_ok (split_previous_bill slugify self b).
Proof.
  unfold split_previous_bill, verify.
  apply always_bind; [apply always_logger|intros _].
  apply always_bind; [apply always_find_element|intros title].
  apply always_bind; [by apply always_same_db|intros processed].
  destruct processed; [apply always_logger|].
  apply always_bind; [apply split_new_cycle_in_order|intros f].
  apply always_bind; [|intros _; apply always_logger].
  apply always_bind; [apply always_find_element|intros text].
  apply always_bind; [apply always_lift|intros bill].
  destruct (F64.gt _ _); [apply always_raise|apply always_logger].
Qed.

Lemma empty_ledger_ok :
  ledger_ok {| tbl_user := []; tbl_category := []; tbl_type := [];
               tbl_cycle := []; tbl_charge := [] |}.
Proof. split; [constructor|]. intros r Hr. by apply elem_of_nil in Hr. Qed.

End LedgerInvariant.

(** * Further properties of the code *)

(** ** Labels and amounts (main.py, lines 187-195) *)

Module ExtractMore.
Import Locate.

Lemma read_digits_nonneg (s : string) (acc : Z) (n : nat) :
  (0 <= acc)%Z → (0 <= (Text.read_digits acc n s).1.1)%Z.
Proof.
  revert acc n. induction s as [|c s IH]; intros acc n Hacc; [done|].
  cbn [Text.read_digits]. destruct (Text.is_digit c) eqn:Hc; [|done].
  apply IH. unfold Text.is_digit in Hc. cbn zeta in Hc.
  apply andb_true_iff in Hc as [Hc _]. apply Nat.leb_le in Hc. lia.
Qed.

Lemma Qc_of_Z_nonneg (z : Z) : (0 <= z)%Z → (0 <= Qc_of_Z z)%Qc.
Proof.
  intros Hz. unfold Qcle. cbn [this Q2Qc Qc_of_Z]. rewrite Qred_correct.
  unfold Qle, inject_Z. cbn. lia.
Qed.

Lemma float_nonneg (s : string) (x : Qc) : Text.float s = inr x → (0 <= x)%Qc.
Proof.
  unfold Text.float.
  pose proof (read_digits_nonneg s 0 0 ltac:(lia)) as Hi.
  destruct (Text.read_digits 0 0 s) as [[i ni] rest]. cbn in Hi.
  destruct rest as [|c rest].
  - destruct (ni =? 0)%nat; [done|]. intros [= <-]. by apply Qc_of_Z_nonneg.
  - destruct (Ascii.eqb c "."); [|done].
    pose proof (read_digits_nonneg rest 0 0 ltac:(lia)) as Hf.
    destruct (Text.read_digits 0 0 rest) as [[f nf] rest']. cbn in Hf.
    destruct rest'; [|done]. destruct (ni + nf =? 0)%nat; [done|].
    intros [= <-]. unfold Qcdiv. apply Qcmult_nonneg_nonneg.
    + apply Qc_of_Z_nonneg. nia.
    + unfold Qcle. cbn [this Qcinv Q2Qc]. rewrite !Qred_correct.
      apply Qinv_le_0_compat. unfold Qle, inject_Z. cbn. lia.
Qed.

(** X3. For a label without pattern characters, an extracted amount is
    never negative: the pattern captures digits and dots only, so that no
    sign reaches [float]. *)
Theorem extract_total_nonneg (label body : string) (x : Qc) :
  Re.plain label = true →
  extract_total label body = inr x → (0 <= x)%Qc.
Proof.
  intros _. unfold extract_total. destruct (Re.search _ _); [|done].
  apply float_nonneg.
Qed.

Lemma is_digit_is_numeral_char (d : nat) :
  (d < 10)%nat → Text.is_digit_or_dot (ascii_of_nat (48 + d)) = true.
Proof.
  intros Hd. unfold Text.is_digit_or_dot.
  by destruct (FloatFacts.digit_char d Hd) as [-> _].
Qed.

Lemma digits_is_numeral (ds : list nat) (s : string) :
  Forall (λ d, (d < 10)%nat) ds → is_numeral s = true →
  is_numeral (digits ds +:+ s) = true.
Proof.
  induction 1 as [|d ds Hd _ IH]; intros Hs; [done|].
  cbn [digits]. change (String ?c ?p +:+ s) with (String c (p +:+ s)).
  cbn [is_numeral]. by rewrite is_digit_is_numeral_char, IH.
Qed.

(** X2. Round trip.  For a label without pattern characters, an amount
    written with its integer digits, a dot and its decimals after the first
    'Total <label>' of a body, with no dollar sign in between and no digit
    or dot right after, is extracted as that decimal value. *)
Theorem extract_total_round_trip (label pre mid rest : string)
    (int frac : list nat) :
  Re.plain label = true →
  (∀ i, (i < String.length pre)%nat →
        String.prefix ("Total " +:+ label)
          (Text.drop i (pre +:+ ("Total " +:+ label) +:+ mid +:+ "$"
                        +:+ (digits int +:+ "." +:+ digits frac) +:+ rest)) = false) →
  (∀ m1 m2, mid ≠ m1 +:+ "$" +:+ m2) →
  Forall (λ d, (d < 10)%nat) int → Forall (λ d, (d < 10)%nat) frac →
  int ≠ [] ∨ frac ≠ [] →
  starts_amount rest = false →
  extract_total label
    (pre +:+ ("Total " +:+ label) +:+ mid +:+ "$"
     +:+ (digits int +:+ "." +:+ digits frac) +:+ rest)
  = inr (decimal_value int frac).
Proof.
  intros _ Hfirst Hmid Hint Hfrac Hne Hrest.
  unfold extract_total. rewrite ExtractFacts.search_total. unfold Locate.total.
  rewrite ExtractFacts.after_first_found by done. cbn [mbind option_bind].
  rewrite ExtractFacts.first_amount_found.
  - by apply FloatFacts.float_decimal.
  - intros m1 c m2 Heq. exfalso. by apply (Hmid m1 (String c m2)).
  - destruct int as [|d int]; [|done]. done.
  - apply digits_is_numeral; [done|].
    change ("." +:+ digits frac) with (String "." (digits frac)).
    cbn [is_numeral]. change (Text.is_digit_or_dot ".") with true. cbn [andb].
    assert (digits frac +:+ "" = digits frac) as <-.
    { generalize (digits frac). intros s. induction s as [|c s IH]; [done|].
      change (String c s +:+ "") with (String c (s +:+ "")). by rewrite IH. }
    by apply digits_is_numeral.
  - done.
Qed.

(** X1. An amount written with a thousands separator is cut at the comma:
    the pattern captures digits and dots only, so that what is extracted is
    the value of the digits before the first comma. *)
Theorem extract_total_stops_at_comma (label pre mid rest : string)
    (int : list nat) :
  Re.plain label = true →
  (∀ i, (i < String.length pre)%nat →
        String.prefix ("Total " +:+ label)
          (Text.drop i (pre +:+ ("Total " +:+ label) +:+ mid +:+ "$"
                        +:+ digits int +:+ "," +:+ rest)) = false) →
  (∀ m1 m2, mid ≠ m1 +:+ "$" +:+ m2) →
  Forall (λ d, (d < 10)%nat) int → int ≠ [] →
  extract_total label
    (pre +:+ ("Total " +:+ label) +:+ mid +:+ "$" +:+ digits int +:+ "," +:+ rest)
  = inr (Qc_of_Z (digits_value int)).
Proof.
  intros _ Hfirst Hmid Hint Hne.
  unfold extract_total. rewrite ExtractFacts.search_total. unfold Locate.total.
  rewrite ExtractFacts.after_first_found by done. cbn [mbind option_bind].
  rewrite ExtractFacts.first_amount_found.
  - by apply FloatFacts.float_integer.
  - intros m1 c m2 Heq. exfalso. by apply (Hmid m1 (String c m2)).
  - destruct int as [|d int]; done.
  - assert (digits int +:+ "" = digits int) as <-.
    { generalize (digits int). intros s. induction s as [|c s IH]; [done|].
      change (String c s +:+ "") with (String c (s +:+ "")). by rewrite IH. }
    by apply digits_is_numeral.
  - done.
Qed.

End ExtractMore.

(** ** What a split leaves in the tables *)

Lemma grows_refl (d : DB) : grows d d.
Proof. by repeat split. Qed.

Lemma grows_trans (d1 d2 d3 : DB) : grows d1 d2 → grows d2 d3 → grows d1 d3.
Proof.
  intros (?&?&?&?&?) (?&?&?&?&?). repeat split; by etrans.
Qed.

Lemma extends_bind {A B} (m : M A) (k : A → M B) :
  extends m → (∀ a, extends (k a)) → extends (m ≫= k).
Proof.
  intros Hm Hk w. rewrite bind_run. specialize (Hm w).
  destruct (m w) as [w1 [e|a]]; [done|]. eapply grows_trans; [exact Hm|apply Hk].
Qed.

Lemma extends_same {A} (m : M A) : (∀ w, db (m w).1 = db w) → extends m.
Proof. intros Hm w. rewrite Hm. apply grows_refl. Qed.

Lemma extends_for_each {A S} (body : S → A → M S) (l : list A) (s : S) :
  (∀ s x, extends (body s x)) → extends (for_each body l s).
Proof.
  intros Hbody. revert s. induction l as [|x l IH]; intros s; cbn [for_each].
  - by apply extends_same.
  - apply extends_bind; [apply Hbody|apply IH].
Qed.

Lemma extends_User_get_or_create (name number : string) :
  extends (User_get_or_create name number).
Proof.
  intros w. unfold User_get_or_create.
  destruct (List.find _ _); [apply grows_refl|].
  repeat split; cbn; try done. by apply prefix_app_r.
Qed.

Lemma extends_ChargeCategory_get_or_create (cat text : string) :
  extends (ChargeCategory_get_or_create cat text).
Proof.
  intros w. unfold ChargeCategory_get_or_create.
  destruct (List.find _ _); [apply grows_refl|].
  repeat split; cbn; try done. by apply prefix_app_r.
Qed.

Lemma extends_ChargeType_get_or_create (ty text : string) (cat : ChargeCategory) :
  extends (ChargeType_get_or_create ty text cat).
Proof.
  intros w. unfold ChargeType_get_or_create.
  destruct (List.find _ _); [apply grows_refl|].
  repeat split; cbn; try done. by apply prefix_app_r.
Qed.

Lemma extends_BillingCycle_create (name : string) :
  extends (BillingCycle_create name).
Proof.
  intros w. unfold BillingCycle_create.
  repeat split; cbn; try done. by apply prefix_app_r.
Qed.

Lemma extends_try_save (u : nat) (t : ChargeType) (c : BillingCycle) (a : Qc) :
  extends (try_save u t c a).
Proof.
  intros w. unfold try_save, Charge_save.
  destruct (existsb _ _); [apply grows_refl|].
  repeat split; cbn; try done. by apply prefix_app_r.
Qed.

Ltac extends_step :=
  first
    [ apply extends_try_save
    | apply extends_ChargeType_get_or_create
    | apply extends_User_get_or_create
    | apply extends_ChargeCategory_get_or_create
    | apply extends_BillingCycle_create
    | apply extends_bind; [|intros ?]
    | apply extends_for_each; intros ??
    | apply extends_same; reflexivity
    | apply extends_same; intros ?; reflexivity
    | match goal with |- extends (match ?x with _ => _ end) => destruct x end
    | match goal with |- extends (if ?x then _ else _) => destruct x end ].

Lemma grows_bind_tail {A B} (m : M A) (k : A → M B) (w : world) :
  (∀ a, extends (k a)) → grows (db (m w).1) (db ((m ≫= k) w).1).
Proof.
  intros Hk. rewrite bind_run.
  destruct (m w) as [w1 [e|a]]; [apply grows_refl|apply Hk].
Qed.

Section Tables.
Variable slugify : string → string.

(** X4. Whatever the page holds and however the method ends, with a return
    or with an exception, [split_previous_bill] only appends: each of the
    five tables begins with the rows it had, unchanged. *)
Theorem split_only_appends (self : AttBillSpliter) (b : browser) (w : world) :
  grows (db w) (db (split_previous_bill slugify self b w).1).
Proof.
  revert w. change (extends (split_previous_bill slugify self b)).
  unfold split_previous_bill, split_new_cycle, verify, BillingCycle_exists,
    uverse, uverse_item, wireless_holder, holder_item, regular_users,
    regular_user, user_item, shares, share_item, save_to_db, user_total,
    logger, lift, read_local, find_element, raise.
  repeat extends_step.
Qed.

(** *** A second run on the same bill *)

Lemma split_new_cycle_leaves_cycle (self : AttBillSpliter) (b : browser)
    (name : string) (w : world) :
  ∃ c, c ∈ tbl_cycle (db (split_new_cycle slugify self b name w).1)
       ∧ cycle_name c = name.
Proof.
  unfold split_new_cycle.
  match goal with |- context [(BillingCycle_create name ≫= ?k) w] =>
    assert (∀ c, extends (k c)) as Hk
  end.
  { intros c.
    unfold uverse, uverse_item, wireless_holder, holder_item, regular_users,
      regular_user, user_item, shares, share_item, save_to_db, user_total,
      logger, lift, read_local, find_element, raise.
    repeat extends_step. }
  eapply grows_bind_tail in Hk as (_ & _ & _ & Hcycle & _).
  eexists. split; [eapply elem_of_prefix; [|exact Hcycle]|].
  - cbn. apply elem_of_app. right. by apply list_elem_of_singleton.
  - done.
Qed.

Lemma split_leaves_cycle (self : AttBillSpliter) (b : browser) (title : string)
    (w : world) :
  new_charge_title b = Some title →
  ∃ c, c ∈ tbl_cycle (db (split_previous_bill slugify self b w).1)
       ∧ cycle_name c = Text.drop 16 title.
Proof.
  intros Ht. unfold split_previous_bill.
  rewrite bind_run. cbn [logger]. rewrite bind_run, Ht. cbn [find_element mret M_ret].
  rewrite bind_run. unfold BillingCycle_exists. cbn [db].
  destruct (existsb _ (tbl_cycle (db w))) eqn:Hseen.
  - apply existsb_exists in Hseen as (c & Hc%list_elem_of_In & Hn%bool_decide_eq_true).
    by exists c.
  - match goal with |- context [(?m ≫= ?k) ?w0] =>
      assert (∀ f, extends (k f)) as Hk
    end.
    { intros f. unfold verify, logger, lift, find_element, raise.
      repeat extends_step. }
    match goal with |- context [(?m ≫= ?k) ?w0] =>
      apply (grows_bind_tail m k w0) in Hk as (_ & _ & _ & Hcycle & _)
    end.
    destruct (split_new_cycle_leaves_cycle self b (Text.drop 16 title)
                {| db := db w; log := log w ++ [Info "Start processing new bill..."] |})
      as (c & Hc & Hn).
    exists c. split; [|done]. by eapply elem_of_prefix.
Qed.

(** X6. Once [split_previous_bill] has been called on a bill whose title could
    be read, however that call ended, a call on a page with the same title
    returns without an exception and leaves the five tables as the first
    call left them: a split that stopped half-way is not resumed. *)
Theorem split_is_not_resumed (self self' : AttBillSpliter) (b b' : browser)
    (title : string) (w : world) :
  new_charge_title b = Some title →
  new_charge_title b' = Some title →
  let w1 := (split_previous_bill slugify self b w).1 in
  split_previous_bill slugify self' b' w1 =
    ({| db := db w1;
        log := log w1 ++ [Info "Start processing new bill...";
                          Warning "Billing Cycle %s already processed."] |},
     inr ()).
Proof.
  intros Ht Ht' w1.
  destruct (split_leaves_cycle self b title w Ht) as (c & Hc & Hn).
  fold w1 in Hc. clearbody w1. unfold split_previous_bill.
  rewrite bind_run. cbn [logger]. rewrite bind_run, Ht'. cbn [find_element mret M_ret].
  rewrite bind_run. unfold BillingCycle_exists. cbn [db].
  assert (existsb (λ c0, bool_decide (cycle_name c0 = Text.drop 16 title))
            (tbl_cycle (db w1)) = true) as ->.
  { apply existsb_exists. exists c. split; [by apply list_elem_of_In|].
    by apply bool_decide_eq_true. }
  unfold logger. cbn [db log]. by rewrite <- app_assoc.
Qed.

End Tables.

(** ** The charges a split writes *)

Section Charges.
Variable slugify : string → string.

Lemma adds_at_same {A} (Q : Charge → Prop) (m : M A) (w : world) :
  tbl_charge (db (m w).1) = tbl_charge (db w) → adds_at Q m w.
Proof. intros Hm. exists []. by rewrite Hm, app_nil_r. Qed.

Lemma adds_at_bind {A B} (Q : Charge → Prop) (m : M A) (k : A → M B) (w : world) :
  adds_at Q m w →
  (∀ a w1, m w = (w1, inr a) → adds_at Q (k a) w1) →
  adds_at Q (m ≫= k) w.
Proof.
  intros (added1 & H1 & HQ1) Hk. unfold adds_at. rewrite bind_run.
  destruct (m w) as [w1 [e|a]] eqn:Hm; [by exists added1|].
  destruct (Hk a w1 eq_refl) as (added2 & H2 & HQ2).
  exists (added1 ++ added2). cbn in H1. rewrite H2, H1, app_assoc.
  split; [done|]. by apply Forall_app.
Qed.

Lemma adds_at_for_each {A S} (Q : Charge → Prop) (I : S → Prop)
    (body : S → A → M S) (l : list A) :
  (∀ s x w, x ∈ l → I s →
     adds_at Q (body s x) w ∧ ∀ w' s', body s x w = (w', inr s') → I s') →
  ∀ s w, I s → adds_at Q (for_each body l s) w.
Proof.
  induction l as [|x l IH]; intros Hbody s w Hs; cbn [for_each].
  - by apply adds_at_same.
  - destruct (Hbody s x w ltac:(list_mem) Hs) as [Hadd Hinv].
    apply adds_at_bind; [done|]. intros s' w1 Hrun. apply IH; [|by eapply Hinv].
    intros s0 x0 w0 Hx0. apply Hbody. list_mem.
Qed.

Lemma adds_at_try_save (Q : Charge → Prop) (u : nat) (t : ChargeType)
    (c : BillingCycle) (a : Qc) (w : world) :
  (∀ id, Q {| charge_id := id; user := u; charge_type := type_id t;
              billing_cycle := cycle_id c; amount := a |}) →
  adds_at Q (try_save u t c a) w.
Proof.
  intros HQ. unfold adds_at, try_save, Charge_save.
  destruct (existsb _ _); [exists []; by rewrite app_nil_r|].
  eexists [_]. split; [done|]. by repeat constructor.
Qed.

Lemma adds_at_save_to_db (Q : Charge → Prop) (u : nat) (cat : ChargeCategory)
    (text : string) (c : BillingCycle) (a : Qc) (w : world) :
  (∀ id ty, Q {| charge_id := id; user := u; charge_type := ty;
                 billing_cycle := cycle_id c; amount := a |}) →
  adds_at Q (save_to_db slugify u cat text c a) w.
Proof.
  intros HQ. unfold save_to_db. apply adds_at_bind.
  - apply adds_at_same. unfold ChargeType_get_or_create. by destruct (List.find _ _).
  - intros t w1 _. apply adds_at_bind; [by apply adds_at_try_save|].
    intros ? ? _. by apply adds_at_same.
Qed.

(** *** U-verse TV and U-verse Internet *)

Lemma uverse_item_exact (self : AttBillSpliter) (cat : ChargeCategory)
    (c : BillingCycle) (elems : list elem) (e : elem) (w : world) :
  e ∈ elems →
  adds_at (exact_charge (user_id (account_holder self)) c elems)
    (uverse_item slugify self cat c () e) w.
Proof.
  intros He. unfold uverse_item.
  destruct (elem_label e) as [label|] eqn:Hlabel; [|by apply adds_at_same].
  apply adds_at_bind; [by apply adds_at_same|]. intros label' w1 [= <- <-].
  apply adds_at_bind; [by apply adds_at_same|]. intros x w2 [= <- Hx].
  apply adds_at_save_to_db. intros id ty. split_and!; [done|done|].
  by exists e, label.
Qed.

Lemma uverse_adds (self : AttBillSpliter) (elems : list elem)
    (cat text skipped : string) (c : BillingCycle) (w : world) :
  adds_at (exact_charge (user_id (account_holder self)) c elems)
    (uverse slugify self (Some elems) cat text skipped c) w.
Proof.
  unfold uverse. apply adds_at_bind.
  - apply adds_at_same. unfold ChargeCategory_get_or_create.
    by destruct (List.find _ _).
  - intros cat' w1 _.
    apply (adds_at_for_each _ (λ _, True)); [|done].
    intros [] e w2 He _. split; [by apply uverse_item_exact|done].
Qed.

(** X7. The charges that a U-verse section writes are the account holder's,
    in the cycle being split, each of exactly the total extracted from one
    of the section's blocks; this holds of what is written before an
    exception as well. *)
Theorem uverse_charges_exact (self : AttBillSpliter) (elems : list elem)
    (cat text skipped : string) (c : BillingCycle) (w : world) :
  ∃ added,
    tbl_charge (db (uverse slugify self (Some elems) cat text skipped c w).1)
      = tbl_charge (db w) ++ added
    ∧ Forall (exact_charge (user_id (account_holder self)) c elems) added.
Proof. apply uverse_adds. Qed.

(** *** The account holder's wireless blocks *)

Lemma monthly_branch (elems : list elem) (l : locals) (e : elem)
    (label t : string) (l2 : locals) (w w2 : world) :
  e ∈ elems → elem_label e = Some label →
  (∀ d, w_act_m_disc l = Some d → discount_of elems d) →
  (let l := {| offset := Some 0%Qc; w_act_m_disc := w_act_m_disc l |} in
   if Text.startswith label "Monthly Charges" then
     l ← match Re.search Re.discount_pattern (elem_text e) with
          | Some g =>
              d ← lift (Text.float g);
              mret {| offset := offset l; w_act_m_disc := Some d |}
          | None => mret l
          end;
     d ← read_local (w_act_m_disc l);
     mret ("Monthly Charges",
           {| offset := Some (w_act_m - d)%Qc; w_act_m_disc := w_act_m_disc l |})
   else mret (label, l)) w = (w2, inr (t, l2)) →
  w2 = w ∧ t = canonical_label label
  ∧ (∀ d, w_act_m_disc l2 = Some d → discount_of elems d)
  ∧ if Text.startswith label "Monthly Charges"
    then ∃ d, discount_of elems d ∧ offset l2 = Some (w_act_m - d)%Qc
    else offset l2 = Some 0%Qc.
Proof.
  intros He Hlabel Hl. cbn zeta. unfold canonical_label.
  destruct (Text.startswith label "Monthly Charges") eqn:Hstart.
  - intros (w1 & l1 & Hsearch & Hrun)%bind_ok.
    apply bind_ok in Hrun as (w3 & d & Hd & Hrun). injection Hrun as <- <- <-.
    assert (w1 = w ∧ ∀ d, w_act_m_disc l1 = Some d → discount_of elems d)
      as [-> Hl1].
    { destruct (Re.search Re.discount_pattern (elem_text e)) as [g|] eqn:Hg.
      - apply bind_ok in Hsearch as (w4 & d' & Hfloat & Hsearch).
        injection Hsearch as <- <-. unfold lift in Hfloat.
        injection Hfloat as <- Hfloat. split; [done|]. intros d0 [= <-].
        by exists e, label, g.
      - by injection Hsearch as <- <-. }
    destruct (w_act_m_disc l1) as [d1|] eqn:Hd1; [|done]. injection Hd as <- <-.
    split_and!; [done|done|by intros d0 [= <-]; apply Hl1|].
    exists d1. split; [by apply Hl1|done].
  - intros [= <- <- <-]. split_and!; done.
Qed.

Lemma monthly_branch_pure (l : locals) (e : elem) (label : string) (w : world) :
  ((let l := {| offset := Some 0%Qc; w_act_m_disc := w_act_m_disc l |} in
    if Text.startswith label "Monthly Charges" then
      l ← match Re.search Re.discount_pattern (elem_text e) with
           | Some g =>
               d ← lift (Text.float g);
               mret {| offset := offset l; w_act_m_disc := Some d |}
           | None => mret l
           end;
      d ← read_local (w_act_m_disc l);
      mret ("Monthly Charges",
            {| offset := Some (w_act_m - d)%Qc; w_act_m_disc := w_act_m_disc l |})
    else mret (label, l)) w).1 = w.
Proof.
  cbn zeta. destruct (Text.startswith label "Monthly Charges"); [|done].
  rewrite bind_run.
  destruct (Re.search Re.discount_pattern (elem_text e)) as [g|].
  - rewrite bind_run. unfold lift. destruct (Text.float g) as [err|d]; [done|].
    cbn. by rewrite bind_run.
  - cbn. rewrite bind_run. by destruct (w_act_m_disc l).
Qed.

Lemma holder_item_charge (self : AttBillSpliter) (cat : ChargeCategory)
    (c : BillingCycle) (elems : list elem) (l : locals) (e : elem) (w : world) :
  e ∈ elems →
  (∀ d, w_act_m_disc l = Some d → discount_of elems d) →
  adds_at (holder_charge (user_id (account_holder self)) c elems)
    (holder_item slugify self cat c l e) w
  ∧ ∀ w' l', holder_item slugify self cat c l e w = (w', inr l') →
      ∀ d, w_act_m_disc l' = Some d → discount_of elems d.
Proof.
  intros He Hl. unfold holder_item. split.
  - apply adds_at_bind; [by apply adds_at_same; destruct (elem_label e)|].
    intros label w1 Hlabel.
    assert (elem_label e = Some label ∧ w1 = w) as [Hlabel' ->]
      by (destruct (elem_label e); [by injection Hlabel as <- <-|done]).
    clear Hlabel. cbn zeta.
    apply adds_at_bind; [apply adds_at_same; by rewrite monthly_branch_pure|].
    intros [t l2] w2 Hbranch.
    pose proof (monthly_branch elems l e label t l2 w w2 He Hlabel' Hl Hbranch)
      as (-> & -> & Hl2 & Hoff).
    apply adds_at_bind; [by apply adds_at_same|]. intros x w3 [= <- Hx].
    apply adds_at_bind; [by apply adds_at_same; destruct (offset l2)|].
    intros o w4 Ho.
    assert (offset l2 = Some o ∧ w4 = w) as [Ho' ->]
      by (destruct (offset l2); [by injection Ho as <- <-|done]).
    apply adds_at_bind; [|intros ? ? _; by apply adds_at_same].
    apply adds_at_save_to_db. intros id ty. split_and!; [done|done|].
    exists e, label, x. split_and!; [done|done|done|].
    destruct (Text.startswith label "Monthly Charges").
    + destruct Hoff as (d & Hd & Hoff). rewrite Hoff in Ho'.
      injection Ho' as <-. by exists d.
    + rewrite Hoff in Ho'. injection Ho' as <-. cbn. ring.
  - intros w' l' (w1 & label & Hlabel & Hrun)%bind_ok.
    assert (elem_label e = Some label ∧ w1 = w) as [Hlabel' ->]
      by (destruct (elem_label e); [by injection Hlabel as <- <-|done]).
    apply bind_ok in Hrun as (w2 & [t l2] & Hbranch & Hrun).
    pose proof (monthly_branch elems l e label t l2 w w2 He Hlabel' Hl Hbranch)
      as (-> & -> & Hl2 & Hoff).
    apply bind_ok in Hrun as (w3 & x & _ & Hrun).
    apply bind_ok in Hrun as (w4 & o & _ & Hrun).
    apply bind_ok in Hrun as (w5 & [] & _ & Hrun). by injection Hrun as <- <-.
Qed.

Lemma wireless_holder_adds (self : AttBillSpliter) (b : browser)
    (c : BillingCycle) (elems : list elem) (w : world) :
  wireless_elems b (user_name (account_holder self))
                   (user_number (account_holder self)) = Some elems →
  adds_at (holder_charge (user_id (account_holder self)) c elems)
    (wireless_holder slugify self b c
       {| offset := None; w_act_m_disc := None |}) w.
Proof.
  intros Helems. unfold wireless_holder. rewrite Helems. apply adds_at_bind.
  - apply adds_at_same. unfold ChargeCategory_get_or_create.
    by destruct (List.find _ _).
  - intros cat w1 _. apply adds_at_bind; [|intros ? ? _; by apply adds_at_same].
    apply (adds_at_for_each _ (λ l, ∀ d, w_act_m_disc l = Some d → discount_of elems d));
      [|done].
    intros l e w2 He Hl. by apply holder_item_charge.
Qed.

(** X8. The charges that the loop over the account holder's wireless blocks
    writes are the holder's, in the cycle being split.  For a block other
    than the monthly charges the amount is exactly the total extracted from
    it; for the monthly charges it is that total less 130 minus [d], where
    [d] is the amount of a 'National Account Discount' line of a
    monthly-charges block of the holder's. *)
Theorem holder_charges_net_of_pooled_fee (self : AttBillSpliter) (b : browser)
    (c : BillingCycle) (elems : list elem) (w : world) :
  wireless_elems b (user_name (account_holder self))
                   (user_number (account_holder self)) = Some elems →
  ∃ added,
    tbl_charge (db (wireless_holder slugify self b c
                      {| offset := None; w_act_m_disc := None |} w).1)
      = tbl_charge (db w) ++ added
    ∧ Forall (holder_charge (user_id (account_holder self)) c elems) added.
Proof. apply wireless_holder_adds. Qed.

(** *** The cycle of the charges *)

Lemma adds_at_mono {A} (Q Q' : Charge → Prop) (m : M A) (w : world) :
  (∀ r, Q r → Q' r) → adds_at Q m w → adds_at Q' m w.
Proof.
  intros HQ (added & Hm & Hadded). exists added. split; [done|].
  eapply Forall_impl; [exact Hadded|exact HQ].
Qed.

Lemma split_new_cycle_adds (self : AttBillSpliter) (b : browser)
    (name : string) (w : world) :
  adds_at (λ r, billing_cycle r = fresh (cycle_id <$> tbl_cycle (db w)))
    (split_new_cycle slugify self b name) w.
Proof.
  unfold split_new_cycle. apply adds_at_bind; [by apply adds_at_same|].
  intros c w1 [= <- <-]. cbn [cycle_id].
  set (c := {| cycle_id := fresh (cycle_id <$> tbl_cycle (db w)); cycle_name := name |}).
  change (fresh (cycle_id <$> tbl_cycle (db w))) with (cycle_id c).
  generalize (set_db (λ d, {| tbl_user := tbl_user d; tbl_category := tbl_category d;
                              tbl_type := tbl_type d;
                              tbl_cycle := tbl_cycle d ++ [c];
                              tbl_charge := tbl_charge d |}) w).
  intros w1.
  assert (∀ elems cat text skipped w,
            adds_at (λ r, billing_cycle r = cycle_id c)
              (uverse slugify self elems cat text skipped c) w) as Huverse.
  { intros [elems|] cat text skipped w0; [|by apply adds_at_same].
    eapply adds_at_mono; [|apply uverse_adds]. by intros r (_ & ? & _). }
  apply adds_at_bind; [apply Huverse|]. intros [] w2 _.
  apply adds_at_bind; [apply Huverse|]. intros [] w3 _.
  apply adds_at_bind.
  { destruct (wireless_elems b (user_name (account_holder self))
                (user_number (account_holder self))) as [elems|] eqn:Helems.
    - eapply adds_at_mono; [|by apply wireless_holder_adds].
      by intros r (_ & ? & _).
    - unfold wireless_holder. rewrite Helems. by apply adds_at_same. }
  intros [cat l] w4 _. apply adds_at_bind.
  { unfold regular_users. apply (adds_at_for_each _ (λ _, True)); [|done].
    intros users [uname number] w5 _ _. split; [|done]. unfold regular_user.
    destruct (bool_decide _); [by apply adds_at_same|].
    destruct (wireless_elems b uname number) as [elems|]; [|by apply adds_at_same].
    apply adds_at_bind.
    { apply adds_at_same. unfold User_get_or_create. by destruct (List.find _ _). }
    intros u w6 _. apply adds_at_bind.
    2: { intros t w7 _. destruct (bool_decide _); by apply adds_at_same. }
    apply (adds_at_for_each _ (λ _, True)); [|done].
    intros t e w7 _ _. split; [|done]. unfold user_item.
    apply adds_at_bind; [apply adds_at_same; by destruct (elem_label e)|].
    intros label w8 _. apply adds_at_bind; [by apply adds_at_same|].
    intros x w9 _. apply adds_at_bind; [apply adds_at_same; by destruct (offset l)|].
    intros o w10 _. apply adds_at_bind; [|intros ? ? _; by apply adds_at_same].
    by apply adds_at_save_to_db. }
  intros users w5 _. apply adds_at_bind; [|intros ? ? _; by apply adds_at_same].
  unfold shares.
  apply adds_at_bind; [apply adds_at_same; by destruct (w_act_m_disc l)|].
  intros d w6 _. destruct (bool_decide _); [by apply adds_at_same|].
  apply (adds_at_for_each _ (λ _, True)); [|done].
  intros t u w7 _ _. split; [|done]. unfold share_item.
  apply adds_at_bind.
  { apply adds_at_same. unfold ChargeType_get_or_create. by destruct (List.find _ _). }
  intros ty w8 _. apply adds_at_bind; [by apply adds_at_try_save|].
  intros [] w9 _; [|by apply adds_at_same].
  apply adds_at_bind; [by apply adds_at_same|intros ? ? _; by apply adds_at_same].
Qed.

(** X5. However [split_previous_bill] ends, the charges of a cycle that a
    row of BillingCycle stood for before the call are what they were, in
    the same order: what the call writes carries the key of the row it
    creates. *)
Theorem earlier_cycles_untouched (self : AttBillSpliter) (b : browser)
    (w : world) (c0 : BillingCycle) :
  c0 ∈ tbl_cycle (db w) →
  charges_of_cycle c0 (db (split_previous_bill slugify self b w).1)
    = charges_of_cycle c0 (db w).
Proof.
  intros Hc0.
  assert (adds_at (λ r, billing_cycle r = fresh (cycle_id <$> tbl_cycle (db w)))
            (split_previous_bill slugify self b) w) as (added & Hadds & Hadded).
  { unfold split_previous_bill. apply adds_at_bind; [by apply adds_at_same|].
    intros [] w1 [= <-]. apply adds_at_bind;
      [apply adds_at_same; by destruct (new_charge_title b)|].
    intros title w2 Htitle.
    assert (w2 = {| db := db w; log := log w ++ [Info "Start processing new bill..."] |})
      as -> by (destruct (new_charge_title b); [by injection Htitle as <- _|done]).
    apply adds_at_bind; [by apply adds_at_same|]. intros processed w3 [= <- _].
    destruct processed; [by apply adds_at_same|].
    apply adds_at_bind.
    { match goal with |- adds_at _ _ ?w0 =>
        exact (split_new_cycle_adds self b _ w0)
      end. }
    intros f w4 _. apply adds_at_bind.
    - apply adds_at_same. unfold verify. rewrite bind_run.
      destruct (wireless_total_elem b) as [text|]; [|done].
      cbn [find_element mret M_ret]. rewrite bind_run. unfold lift.
      destruct (F64.float _); [done|]. by destruct (F64.gt _ _).
    - intros ? ? _. by apply adds_at_same. }
  unfold charges_of_cycle. rewrite Hadds, filter_app.
  rewrite (filter_none _ added), app_nil_r; [done|].
  intros r Hr Hcycle. rewrite Forall_forall in Hadded.
  apply (fresh_not_in (cycle_id <$> tbl_cycle (db w))).
  rewrite <- (Hadded r Hr), Hcycle. by apply list_elem_of_fmap_2.
Qed.

(** *** The other lines *)

(** X14. The charges that the loop over the other lines of the phonebook
    writes are each of the total extracted from a block of such a line less
    one and the same offset: the one that the loop over the account
    holder's blocks left in [offset], whatever the block. *)
Theorem other_lines_pay_less_holder_offset (self : AttBillSpliter) (b : browser)
    (cat : ChargeCategory) (c : BillingCycle) (l : locals) (w : world) :
  ∃ added,
    tbl_charge (db (regular_users slugify self b cat c l w).1)
      = tbl_charge (db w) ++ added
    ∧ Forall (line_charge self b c l) added.
Proof.
  change (adds_at (line_charge self b c l) (regular_users slugify self b cat c l) w).
  unfold regular_users. apply (adds_at_for_each _ (λ _, True)); [|done].
  intros users [name number] w1 Hentry _. split; [|done]. unfold regular_user.
  case_bool_decide as Hnumber; [by apply adds_at_same|].
  destruct (wireless_elems b name number) as [elems|] eqn:Helems;
    [|by apply adds_at_same].
  apply adds_at_bind.
  { apply adds_at_same. unfold User_get_or_create. by destruct (List.find _ _). }
  intros u w2 _. apply adds_at_bind.
  2: { intros t w3 _. destruct (bool_decide _); by apply adds_at_same. }
  apply (adds_at_for_each _ (λ _, True)); [|done].
  intros t e w3 He _. split; [|done]. unfold user_item.
  apply adds_at_bind; [apply adds_at_same; by destruct (elem_label e)|].
  intros label w4 Hlabel.
  assert (elem_label e = Some label)
    by (destruct (elem_label e); [by injection Hlabel as _ <-|done]).
  apply adds_at_bind; [by apply adds_at_same|]. intros x w5 [= _ Hx].
  apply adds_at_bind; [apply adds_at_same; by destruct (offset l)|].
  intros o w6 Ho.
  assert (offset l = Some o)
    by (destruct (offset l); [by injection Ho as _ <-|done]).
  apply adds_at_bind; [|intros ? ? _; by apply adds_at_same].
  apply adds_at_save_to_db. intros id ty. split; [done|].
  by exists name, number, elems, e, label, x, o.
Qed.

End Charges.

(** ** The properties on the sample bills *)

Module OnSamples.
Import Sample.

Example extract_total_across_lines :
  qval (extract_total "Surcharges"
    "Surcharges
 Fee A $1.25
 Total Surcharges
 $12.50") = inr (25 # 2)%Q.
Proof. vm_compute. reflexivity. Qed.

Example extract_total_thousands :
  qval (extract_total "Usage" "Total Usage $1,234.56") = inr (1 # 1)%Q.
Proof. vm_compute. reflexivity. Qed.

Example extract_total_two_dots :
  extract_total "Usage" "Total Usage $1.2.3" = inl ValueError.
Proof. vm_compute. reflexivity. Qed.

(** C4 fails as stated: where the body has no 'Total <label>' followed by
    an amount, the extraction raises [AttributeError] (the method [group] of
    [None]), not [ExtractionError]. *)
Lemma extract_total_no_match_is_AttributeError :
  extract_total "Surcharges" "Surcharges $1.25" = inl AttributeError
  ∧ extract_total "Surcharges" "Surcharges $1.25" ≠ inl ExtractionError.
Proof. split; [vm_compute; reflexivity|vm_compute; discriminate]. Qed.

Lemma extract_total_spec_witness :
  extract_total "Fees" "Fees: Total Fees
 $12.50" = Text.float "12.50".
Proof.
  apply (proj1 (ExtractFacts.extract_total_spec "Fees" "Fees: Total Fees
 $12.50" eq_refl) "Fees: " "
 " "12.50" "").
  - reflexivity.
  - intros i Hi. do 6 (destruct i as [|i]; [reflexivity|]). cbn in Hi. lia.
  - intros m1 c m2 H.
    destruct m1 as [|a1 [|a2 [|a3 m1]]]; discriminate H.
  - discriminate.
  - reflexivity.
  - reflexivity.
Defined.

(** C1 fails as stated.  On [bill_holder_zero] the holder's wireless
    charges total zero and the holder is a member of [users] all the same:
    the pooled fee of 110 is divided by two.  On [bill_last_zero] Bob's
    charges total 5.00 and Bob (user 2) is not a member: the test looks at
    his last block, of 0.00. *)
Lemma holder_with_zero_total_is_counted :
  (let f := frame_of split_holder_zero in
   split_holder_zero.2 = inr f
   ∧ this (line_total (wireless_charge_category f) (billing_cycle_ f)
             (user_id ann) (db split_holder_zero.1)) = (0 # 1)%Q
   ∧ user_id ann ∈ users_ f
   ∧ size (users_ f) = 2%nat)
  ∧ (let f := frame_of split_last_zero in
     split_last_zero.2 = inr f
     ∧ this (line_total (wireless_charge_category f) (billing_cycle_ f)
               2%nat (db split_last_zero.1)) = (5 # 1)%Q
     ∧ 2%nat ∉ users_ f).
Proof.
  split; cbn zeta; split_and!; try (vm_compute; reflexivity).
  intros H. vm_compute in H. discriminate H.
Qed.

Example holder_zero_charges :
  charges_of (split_previous_bill slug self bill_holder_zero w0).1 =
    [(1, 1, 1, 0 # 1); (1, 2, 1, 0 # 1); (2, 1, 1, 30 # 1);
     (2, 3, 1, 55 # 1); (1, 3, 1, 55 # 1)]%nat%Q.
Proof. vm_compute. reflexivity. Qed.

Lemma active_lines_witness : users_of bob_turn = {[ 1%nat ]}.
Proof.
  assert ("222" ≠ user_number (account_holder self)) as Hnum by discriminate.
  assert (regular_user slug self (bill "$177.50") category_wireless cycle_jan
            locals_jan {[ 1%nat ]} ("Bob", "222") w0
          = (bob_turn.1, inr (users_of bob_turn))) as Hrun
    by (vm_compute; reflexivity).
  destruct (proj2 (active_lines slug self (bill "$177.50") category_wireless
                     cycle_jan locals_jan)
              _ _ _ _ _ _ Hnum Hrun)
    as (elems & u & w1 & Helems & _ & _ & Hzero).
  apply Hzero. intros e a He Ha.
  vm_compute in Helems. injection Helems as <-.
  apply list_elem_of_singleton in He as ->.
  vm_compute in Ha. injection Ha as <-. vm_compute. discriminate.
Defined.

(** C2 fails on the code: on [bill_monthly_last] the holder's last block is
    the monthly charges, whose offset of 110 is then subtracted from Bob's
    surcharges of 5.00: the amount stored for Bob is -105. *)
Theorem offset_leaks_to_other_lines :
  let r := split_previous_bill slug self bill_monthly_last w0 in
  r.2 = inr ()
  ∧ charges_of r.1 =
      [(1, 1, 1, 40 # 1); (2, 2, 1, -105 # 1); (1, 3, 1, 110 # 1)]%nat%Q
  ∧ qval (extract_total "Surcharges" "Total Surcharges $5.00") = inr (5 # 1)%Q.
Proof. split_and!; vm_compute; reflexivity. Qed.


Lemma share_per_active_line_witness :
  ∃ d,
    w_act_m_disc (locals_ (frame_of split_jan)) = Some d
    ∧ user_id (account_holder self) ∈ users_ (frame_of split_jan)
    ∧ let share :=
        ((w_act_m - d) / Qc_of_Z (Z.of_nat (size (users_ (frame_of split_jan)))))%Qc in
      let written :=
        share_charges (wireless_charge_category (frame_of split_jan))
                      (billing_cycle_ (frame_of split_jan)) (db split_jan.1) in
      written ≡ₚ (λ u, (u, share)) <$> elements (users_ (frame_of split_jan))
      ∧ foldr Qcplus 0%Qc written.*2 = (w_act_m - d)%Qc.
Proof.
  apply (share_per_active_line slug) with (b := bill "$177.50")
    (name := "Jan 10 - Feb 09") (w := w0_started).
  - vm_compute. discriminate.
  - split; [constructor|]. intros r Hr. by apply elem_of_nil in Hr.
  - vm_compute. reflexivity.
Defined.

(** The scenario of the specification: two active lines, 55.00 each. *)
Example shares_jan :
  (λ '(u, a), (u, this a))
    <$> share_charges (wireless_charge_category (frame_of split_jan))
          (billing_cycle_ (frame_of split_jan)) (db split_jan.1)
  = [(3%nat, 55 # 1); (1%nat, 55 # 1)]%Q.
Proof. vm_compute. reflexivity. Qed.



(** The doubles of that run, and a bill one cent away from the computed
    total on which the check passes: 177.51 against 177.50. *)
Example one_cent_apart_doubles :
  F64.cent = SpecFloat.S754_finite false 5764607523034235 (-59)
  ∧ double_of "100.01" = SpecFloat.S754_finite false 7037578105208177 (-46)
  ∧ F64.sub (double_of "100.01") (F64.of_Qc (Qc_of_Z 100))
    = SpecFloat.S754_finite false 5764607523037184 (-59).
Proof. split_and!; vm_compute; reflexivity. Qed.

Example one_cent_apart_passes :
  this (wireless_total_ (frame_of split_jan)) = (355 # 2)%Q
  ∧ (split_previous_bill slug self (bill "$177.51") w0).2 = inr ()
  ∧ (split_previous_bill slug self (bill "$177.49") w0).2 = inr ().
Proof. split_and!; vm_compute; reflexivity. Qed.

(** The text of the total is read as [float] reads it: blanks around the
    numeral and an exponent are accepted. *)
Example bill_total_with_blank :
  (split_previous_bill slug self (bill "$ 177.50") w0).2 = inr ()
  ∧ (split_previous_bill slug self (bill "$1.775e2") w0).2 = inr ()
  ∧ (split_previous_bill slug self (bill "$1,77.50") w0).2 = inl ValueError.
Proof. split_and!; vm_compute; reflexivity. Qed.

Example reconciliation_passes :
  (split_previous_bill slug self (bill "$177.50") w0).2 = inr ()
  ∧ (split_previous_bill slug self (bill "$177.505") w0).2 = inr ()
  ∧ (split_previous_bill slug self (bill "$177.52") w0).2 = inl CalculationError.
Proof. split_and!; vm_compute; reflexivity. Qed.

Lemma split_processed_cycle_no_write_witness :
  split_previous_bill slug self (bill "$177.50") w_processed =
    ({| db := db w_processed;
        log := log w_processed ++ [Info "Start processing new bill...";
                                   Warning "Billing Cycle %s already processed."] |},
     inr ()).
Proof.
  apply (split_processed_cycle_no_write slug self (bill "$177.50") w_processed
           "New charges for Jan 10 - Feb 09" cycle_jan).
  - reflexivity.
  - apply list_elem_of_here.
  - reflexivity.
Defined.

Lemma duplicate_charge_rejected_witness :
  Charge_save 1 type_monthly cycle_jan (Qc_of_Z 50) w_charged
    = (w_charged, inl IntegrityError)
  ∧ try_save 1 type_monthly cycle_jan (Qc_of_Z 50) w_charged =
      ({| db := db w_charged;
          log := log w_charged ++ [DuplicateWarning 1 1 1 (Qc_of_Z 50)] |},
       inr false)
  ∧ (try_save 1 type_monthly cycle_jan (Qc_of_Z 50) ≫= λ _, mret ()) w_charged =
      (mret () : M ()) {| db := db w_charged;
                 log := log w_charged ++ [DuplicateWarning 1 1 1 (Qc_of_Z 50)] |}.
Proof.
  apply (duplicate_charge_rejected 1 type_monthly cycle_jan (Qc_of_Z 50) w_charged
           charge_1 (λ _, mret ())).
  split_and!; [apply list_elem_of_here|reflexivity|reflexivity|reflexivity].
Defined.

(** A block that comes twice: the second insert is refused and logged, and
    the loop goes on to the third block. *)
Example duplicate_block_is_skipped :
  let b := {| new_charge_title := Some "New charges for May 10 - Jun 09";
              utv_elems := Some [block "Equipment" "Total Equipment $10.00";
                                 block "Equipment" "Total Equipment $11.00";
                                 block "Taxes" "Total Taxes $1.00"];
              uvi_elems := None;
              wireless_elems := λ _ number,
                if bool_decide (number = "111") then Some [monthly_150] else Some [];
              wireless_total_elem := Some "$150.00" |} in
  let r := split_previous_bill slug self b w0 in
  r.2 = inr ()
  ∧ charges_of r.1 =
      [(1, 1, 1, 10 # 1); (1, 2, 1, 1 # 1); (1, 3, 1, 40 # 1); (1, 4, 1, 110 # 1)]%nat%Q
  ∧ DuplicateWarning 1 1 1 (amount_of "11.00") ∈ log r.1.
Proof.
  split_and!; [vm_compute; reflexivity|vm_compute; reflexivity|].
  vm_compute. apply list_elem_of_further, list_elem_of_here.
Qed.

Lemma notify_last_user_left_out_witness :
  Services.messages (Services.notify_collect cycle_jan detail_rows_jan)
    !! Some "333" = None.
Proof.
  refine (proj1 (proj2 (ServicesFacts.notify_last_user_left_out cycle_jan
    detail_rows_jan
    {| Services.row_id := 3; Services.row_name := "Cy";
       Services.row_number := "333";
       Services.row_charge_type := "Account Monthly Charges Share";
       Services.row_total := Qc_of_Z 55 |} _ _))).
  - intros r1 r2 H1 H2. unfold detail_rows_jan in *.
    repeat (apply elem_of_cons in H1 as [->|H1]);
      try (by apply elem_of_nil in H1);
      repeat (apply elem_of_cons in H2 as [->|H2]);
      try (by apply elem_of_nil in H2);
      cbn; split; intros H; try reflexivity; discriminate H.
  - vm_compute. reflexivity.
Defined.

(** On the sample, the detail report walks the rows user by user while the
    mapping of messages has Ann's only. *)
Example notify_jan :
  (map_to_list (Services.messages (Services.notify_collect cycle_jan detail_rows_jan))).*1
    = [Some "111"].
Proof. vm_compute. reflexivity. Qed.

End OnSamples.

(** ** The further properties on the sample bills *)

Module OnMoreSamples.
Import Sample MoreSamples.

Lemma extract_total_round_trip_witness :
  extract_total "Fees"
    ("Fees: " +:+ ("Total " +:+ "Fees") +:+ "
 " +:+ "$" +:+ (Locate.digits [1; 2] +:+ "." +:+ Locate.digits [5; 0]) +:+ "")%nat
  = inr (Locate.decimal_value [1; 2] [5; 0])%nat.
Proof.
  apply (ExtractMore.extract_total_round_trip "Fees" "Fees: " "
 " "" [1; 2]%nat [5; 0]%nat).
  - reflexivity.
  - intros i Hi. do 6 (destruct i as [|i]; [reflexivity|]). cbn in Hi. lia.
  - intros m1 m2 H.
    destruct m1 as [|a1 [|a2 [|a3 m1]]]; discriminate H.
  - repeat (constructor; try lia).
  - repeat (constructor; try lia).
  - left. discriminate.
  - reflexivity.
Defined.

Example round_trip_value :
  this (Locate.decimal_value [1; 2] [5; 0])%nat = (25 # 2)%Q.
Proof. vm_compute. reflexivity. Qed.

Lemma extract_total_stops_at_comma_witness :
  extract_total "Usage"
    ("" +:+ ("Total " +:+ "Usage") +:+ " " +:+ "$" +:+ Locate.digits [1]%nat
     +:+ "," +:+ "234.56")
  = inr (Qc_of_Z (Locate.digits_value [1]%nat)).
Proof.
  apply (ExtractMore.extract_total_stops_at_comma "Usage" "" " " "234.56" [1]%nat).
  - reflexivity.
  - intros i Hi. cbn in Hi. lia.
  - intros m1 m2 H. destruct m1 as [|a1 [|a2 m1]]; discriminate H.
  - repeat (constructor; try lia).
  - discriminate.
Defined.

Lemma extract_total_nonneg_witness : (0 <= amount_of "2.50")%Qc.
Proof.
  apply (ExtractMore.extract_total_nonneg "Surcharges" "Total Surcharges $2.50").
  - reflexivity.
  - vm_compute. reflexivity.
Defined.

Lemma earlier_cycles_untouched_witness :
  charges_of_cycle cycle_jan (db (split_previous_bill slug self bill_monthly_last w_jan).1)
  = charges_of_cycle cycle_jan (db w_jan).
Proof.
  apply (earlier_cycles_untouched slug self bill_monthly_last w_jan cycle_jan).
  vm_compute. apply list_elem_of_here.
Defined.

(** On the sample the second bill is split indeed: the ledger has the three
    charges of its cycle after the five of the first. *)
Example second_bill_is_split :
  charges_of (split_previous_bill slug self bill_monthly_last w_jan).1 =
    [(1, 1, 1, 60 # 1); (1, 2, 1, 40 # 1); (1, 3, 1, 5 # 2); (2, 2, 1, 0 # 1);
     (3, 2, 1, 25 # 1); (3, 4, 1, 55 # 1); (1, 4, 1, 55 # 1);
     (1, 2, 2, 40 # 1); (2, 3, 2, -105 # 1); (1, 4, 2, 110 # 1)]%nat%Q.
Proof. vm_compute. reflexivity. Qed.

Lemma split_is_not_resumed_witness :
  let w1 := (split_previous_bill slug self bill_no_discount w0).1 in
  split_previous_bill slug self bill_no_discount w1 =
    ({| db := db w1;
        log := log w1 ++ [Info "Start processing new bill...";
                          Warning "Billing Cycle %s already processed."] |},
     inr ()).
Proof.
  apply (split_is_not_resumed slug self self bill_no_discount bill_no_discount
           "New charges for Apr 10 - May 09" w0); reflexivity.
Defined.

(** On the sample the first call stops with an exception, the cycle's row
    written. *)
Example first_call_fails :
  (split_previous_bill slug self bill_no_discount w0).2 = inl UnboundLocalError
  ∧ cycle_name <$> tbl_cycle (db (split_previous_bill slug self bill_no_discount w0).1)
    = ["Apr 10 - May 09"].
Proof. split; vm_compute; reflexivity. Qed.

Lemma holder_charges_net_of_pooled_fee_witness :
  ∃ added,
    tbl_charge (db (wireless_holder slug self (bill "$177.50") cycle_jan
                      {| offset := None; w_act_m_disc := None |} w0).1)
      = tbl_charge (db w0) ++ added
    ∧ Forall (holder_charge (user_id (account_holder self)) cycle_jan elems_ann) added.
Proof.
  apply (holder_charges_net_of_pooled_fee slug self (bill "$177.50") cycle_jan
           elems_ann w0).
  reflexivity.
Defined.

Lemma sent_messages_are_complete_witness :
  complete_message cycle_jan (Services.order_by_user_id detail_rows_jan)
    first_sent.1.1 first_sent.1.2.
Proof.
  refine (proj2 (proj2 (ReportFacts.sent_messages_are_complete (λ _, "y") "Pay Ann"
    cycle_jan detail_rows_jan first_sent.1.1 first_sent.1.2 first_sent.2 _))).
  vm_compute. apply list_elem_of_here.
Defined.

Example first_sent_is_anns : first_sent.1.1 = Some "111" ∧ length sent_jan = 1%nat.
Proof. split; vm_compute; reflexivity. Qed.

Lemma confirmed_users_are_notified_witness :
  ∃ msg, (Some "111", msg, "Pay Ann") ∈ sent_jan.
Proof.
  apply (ReportFacts.confirmed_users_are_notified (λ _, "y") "Pay Ann" cycle_jan
           detail_rows_jan [] [ann_share] [cy_share] ann_monthly cy_monthly).
  - vm_compute. reflexivity.
  - repeat constructor.
  - discriminate.
  - intros z Hz. discriminate Hz.
  - intros H. vm_compute in H. discriminate H.
  - apply list_elem_of_here.
Defined.

Lemma compared_total_is_stored_total_witness :
  wireless_total_ (frame_of split_jan) =
    foldr Qcplus 0%Qc
      ((λ u, stored_total u (billing_cycle_ (frame_of split_jan))
               (wireless_charge_category (frame_of split_jan)) (db split_jan.1))
         <$> elements (users_ (frame_of split_jan))).
Proof.
  apply (compared_total_is_stored_total slug) with (self := self)
    (b := bill "$177.50") (name := "Jan 10 - Feb 09") (w := w0_started).
  - vm_compute. discriminate.
  - split; [constructor|]. intros r Hr. by apply elem_of_nil in Hr.
  - vm_compute. reflexivity.
Defined.

(** The scenario of the specification: 177.50 in all. *)
Example compared_total_jan :
  this (wireless_total_ (frame_of split_jan)) = (355 # 2)%Q.
Proof. vm_compute. reflexivity. Qed.

End OnMoreSamples.
